(** * Connection lifecycle of the wallet adapter

A shallow embedding of [packages/react/src/WalletProvider.tsx]: the
[WalletProvider] component (the connection orchestrator) and the
[SolletWalletAdapter] class (the handshake adapter), with the properties
of their connect / disconnect / sign life cycle.

Asynchronous code is embedded as state passing over a world record.  An
[await] either completes normally, throws, or is still waiting when the
recorded future of the environment runs out.  Closures that the source
registers as listeners, timer callbacks or promise handlers are
defunctionalised: a constructor names the closure and a definition holds
its body. *)

From Stdlib Require Import ZArith Lia.
From stdpp Require Import base option list strings gmap.

Set Default Proof Using "Type".
Set Warnings "-register-all".

(** ** Thrown values *)

(** The error classes of [@solana/wallet-adapter-base] (and
    [WalletNotSelectedError] of [./errors]), all subclasses of
    [WalletError]. *)
Inductive kind :=
| NotReady | Load | Config | Connection | Disconnected | Disconnection
| NotConnected | NotSelected | SignMessage | SignTransaction
| Timeout | WindowBlocked | WindowClosed.

(** A thrown value is a [WalletError] of some kind, built with an optional
    message and an optional inner error, or any other value, of which only
    [error?.message] is ever read. *)
Inductive error :=
| WalletError (k : kind) (message : option string) (inner : option error)
| Thrown (message : option string).

Definition WalletNotReadyError := WalletError NotReady None None.
Definition WalletNotConnectedError := WalletError NotConnected None None.
Definition WalletNotSelectedError := WalletError NotSelected None None.
Definition WalletDisconnectedError := WalletError Disconnected None None.
Definition WalletTimeoutError := WalletError Timeout None None.
Definition WalletWindowBlockedError := WalletError WindowBlocked None None.
Definition WalletWindowClosedError := WalletError WindowClosed None None.
Definition WalletLoadError m e := WalletError Load m (Some e).
Definition WalletConfigError m e := WalletError Config m (Some e).
Definition WalletConnectionError m e := WalletError Connection m (Some e).
Definition WalletDisconnectionError m e := WalletError Disconnection m (Some e).
Definition WalletSignTransactionError m e := WalletError SignTransaction m (Some e).
Definition WalletSignMessageError m e := WalletError SignMessage m (Some e).

(** [error instanceof WalletError] *)
Definition instanceof_WalletError (e : error) : bool :=
  match e with WalletError _ _ _ => true | Thrown _ => false end.

(** [error?.message] *)
Definition message (e : error) : option string :=
  match e with WalletError _ m _ => m | Thrown m => m end.

(** ** Completions and the world-passing monad *)

(** How an asynchronous computation stands when the recorded future ends. *)
Inductive completion (A : Type) :=
| Normal (v : A)      (* returned, or the promise resolved *)
| Throw (e : error)   (* threw, or the promise rejected *)
| Awaiting.           (* suspended at an [await] that has not settled *)
Arguments Normal {A} v.
Arguments Throw {A} e.
Arguments Awaiting {A}.

Definition M (W A : Type) : Type := W → W * completion A.

Section Monad.

Context {W : Type}.

Definition ret {A} (v : A) : M W A := λ w, (w, Normal v).
Definition throw {A} (e : error) : M W A := λ w, (w, Throw e).
Definition await {A} (c : completion A) : M W A := λ w, (w, c).
Definition gets {A} (f : W → A) : M W A := λ w, (w, Normal (f w)).
Definition modify (f : W → W) : M W unit := λ w, (f w, Normal tt).

Definition bind {A B} (m : M W A) (k : A → M W B) : M W B :=
  λ w, match m w with
       | (w', Normal v) => k v w'
       | (w', Throw e) => (w', Throw e)
       | (w', Awaiting) => (w', Awaiting)
       end.

(** [try { m } catch (error) { h error }] *)
Definition try_catch {A} (m : M W A) (h : error → M W A) : M W A :=
  λ w, match m w with
       | (w', Throw e) => h e w'
       | r => r
       end.

(** [try { m } finally { f }]: [f] runs when [m] returns and when it
    throws; a completion of [f] that is not normal replaces that of [m]. *)
Definition try_finally {A} (m : M W A) (f : M W unit) : M W A :=
  λ w, match m w with
       | (w', Awaiting) => (w', Awaiting)
       | (w', r) =>
           match f w' with
           | (w'', Normal _) => (w'', r)
           | (w'', Throw e) => (w'', Throw e)
           | (w'', Awaiting) => (w'', Awaiting)
           end
       end.

End Monad.

Declare Scope js_scope.
Delimit Scope js_scope with js.
Notation "'let*' x := m 'in' k" := (bind m (λ x, k))
  (at level 10, x name, m at level 100, k at level 200) : js_scope.
Notation "m >> k" := (bind m (λ _, k))
  (at level 90, right associativity) : js_scope.

(** ** The browser *)

(** Calls on the global [window] that the code makes. *)
Inductive browser_call :=
| window_open (url target : string)
| window_addEventListener (type : string)
| window_removeEventListener (type : string).

(** ** Timers of the JavaScript runtime *)

Module Timers.

(** The closures handed to [setTimeout] and [setInterval]. *)
Inductive callback :=
| poll              (* the popup probe of connect(), lines 385-394 *)
| connect_timeout   (* [() => reject(new WalletTimeoutError())] *)
| grace.            (* [() => resolve()] of disconnect() *)

Record timer := Timer {
  tid : nat;              (* the handle returned to the caller *)
  due : Z;                (* when it fires next, in ms *)
  period : option Z;      (* [Some p] for an interval *)
  cb : callback;
}.

(** The table of the runtime, as the call in progress sees it: the timers
    that this call has installed, and those that earlier calls have left
    armed.  A call holds the handles of its own timers only, so that
    [clearTimeout] and [clearInterval] never reach a timer of an earlier
    call. *)
Record t := Runtime {
  now : Z;
  next_tid : nat;
  pending : list timer;   (* of the call in progress, in installation order *)
  earlier : list timer;   (* left armed by earlier calls *)
}.

Definition start (clock : Z) : t := Runtime clock 1 [] [].

(** A call starts a race: nothing is cleared, and what is still pending is
    from now on a timer of an earlier call.  The handles of the race are
    numbered from 1: they are only compared with each other. *)
Definition renew (rt : t) : t :=
  Runtime (now rt) 1 [] (earlier rt ++ pending rt).

Definition setTimeout (c : callback) (delay : Z) (rt : t) : t * nat :=
  (Runtime (now rt) (S (next_tid rt))
     (pending rt ++ [Timer (next_tid rt) (now rt + delay) None c])
     (earlier rt),
   next_tid rt).

Definition setInterval (c : callback) (delay : Z) (rt : t) : t * nat :=
  (Runtime (now rt) (S (next_tid rt))
     (pending rt ++ [Timer (next_tid rt) (now rt + delay) (Some delay) c])
     (earlier rt),
   next_tid rt).

(** [clearTimeout] and [clearInterval] with a handle of the call in
    progress: a handle that is not pending is ignored. *)
Definition clear (id : nat) (rt : t) : t :=
  Runtime (now rt) (next_tid rt)
    (List.filter (λ tm, negb (tid tm =? id)) (pending rt))
    (earlier rt).

(** The timer that fires next: the earliest due, the first installed among
    equals. *)
Fixpoint earliest (ts : list timer) : option timer :=
  match ts with
  | [] => None
  | tm :: ts' =>
      match earliest ts' with
      | Some tm' => if (due tm' <? due tm)%Z then Some tm' else Some tm
      | None => Some tm
      end
  end.

(** The runtime fires the next timer of the call in progress: the clock
    moves to its due time, a timeout leaves the table and an interval is
    armed again; the callback is handed back to be run. *)
Definition fire (rt : t) : option (callback * t) :=
  match earliest (pending rt) with
  | None => None
  | Some tm =>
      let rest := List.filter (λ x, negb (tid x =? tid tm)) (pending rt) in
      let again :=
        match period tm with
        | Some p => [Timer (tid tm) (Z.max (now rt) (due tm) + p) (Some p) (cb tm)]
        | None => []
        end in
      Some (cb tm,
            Runtime (Z.max (now rt) (due tm)) (next_tid rt) (rest ++ again)
              (earlier rt))
  end.

(** The earliest due of a list of timers, the first among equals, and the
    others. *)
Fixpoint split_earliest (ts : list timer) : option (timer * list timer) :=
  match ts with
  | [] => None
  | tm :: ts' =>
      match split_earliest ts' with
      | Some (tm', rest) =>
          if (due tm' <? due tm)%Z then Some (tm', tm :: rest) else Some (tm, ts')
      | None => Some (tm, [])
      end
  end.

(** The runtime fires the next of the timers that earlier calls left armed:
    the clock moves to its due time, a timeout leaves the table and an
    interval is armed again.  Its callback settles the promise of the race
    of that earlier call, which has settled when that call ended: it does
    nothing.  (An earlier call that is still suspended is not followed any
    further.) *)
Definition lapse (rt : t) : t :=
  match split_earliest (earlier rt) with
  | None => rt
  | Some (tm, rest) =>
      let again :=
        match period tm with
        | Some p => [Timer (tid tm) (Z.max (now rt) (due tm) + p) (Some p) (cb tm)]
        | None => []
        end in
      Runtime (Z.max (now rt) (due tm)) (next_tid rt) (pending rt) (rest ++ again)
  end.

End Timers.

(** ** The transport: a [Wallet] of [@project-serum/sol-wallet-adapter] *)

(** The library is an external dependency.  The record holds the members the
    adapter reads and writes; what the library itself does to them arrives as
    events of the environment. *)

Module SolWallet.

Definition PublicKey := string.

(** The closures registered with [wallet.on]. *)
Inductive listener :=
| connect_closure    (* [const connect = () => {...}], lines 363-367 *)
| _disconnected.     (* [this._disconnected], lines 518-528 *)

(** The value of the member [handleDisconnect]. *)
Inductive handler :=
| library_handler    (* the method the library defines *)
| connect_hook       (* the closure of lines 369-373 *)
| disconnect_hook.   (* the closure of lines 435-441 *)

(** Calls the adapter makes on the transport. *)
Inductive call :=
| connect_called
| disconnect_called
| handleDisconnect_applied (h : handler)   (* [handleDisconnect.apply(wallet, args)] *)
| responsePromises_replaced.               (* [_responsePromises = new Map()] *)

Record t := Wallet {
  publicKey : option PublicKey;
  connected : bool;
  on_connect : list listener;      (* listeners of 'connect' *)
  on_disconnect : list listener;   (* listeners of 'disconnect' *)
  handleDisconnect : handler;
  _popup : option bool;            (* [Some closed]: a popup whose [closed] is that *)
  calls : list call;               (* oldest first *)
}.

(** A transport as its constructor returns it. *)
Definition fresh : t := Wallet None false [] [] library_handler None [].

Definition listener_eqb (a b : listener) : bool :=
  match a, b with
  | connect_closure, connect_closure | _disconnected, _disconnected => true
  | _, _ => false
  end.

Definition with_identity (pk : option PublicKey) (c : bool) (w : t) : t :=
  Wallet pk c (on_connect w) (on_disconnect w) (handleDisconnect w) (_popup w) (calls w).
Definition with_on_connect (ls : list listener) (w : t) : t :=
  Wallet (publicKey w) (connected w) ls (on_disconnect w) (handleDisconnect w) (_popup w) (calls w).
Definition with_on_disconnect (ls : list listener) (w : t) : t :=
  Wallet (publicKey w) (connected w) (on_connect w) ls (handleDisconnect w) (_popup w) (calls w).
Definition with_handleDisconnect (h : handler) (w : t) : t :=
  Wallet (publicKey w) (connected w) (on_connect w) (on_disconnect w) h (_popup w) (calls w).
Definition with_popup (p : option bool) (w : t) : t :=
  Wallet (publicKey w) (connected w) (on_connect w) (on_disconnect w) (handleDisconnect w) p (calls w).
Definition called (c : call) (w : t) : t :=
  Wallet (publicKey w) (connected w) (on_connect w) (on_disconnect w) (handleDisconnect w) (_popup w)
    (calls w ++ [c]).

(** [wallet.on('connect', l)] and [wallet.off('connect', l)]; likewise for
    'disconnect'.  [off] drops every registration of [l]. *)
Definition on_connect_add (l : listener) (w : t) : t :=
  with_on_connect (on_connect w ++ [l]) w.
Definition off_connect (l : listener) (w : t) : t :=
  with_on_connect (List.filter (λ x, negb (listener_eqb x l)) (on_connect w)) w.
Definition on_disconnect_add (l : listener) (w : t) : t :=
  with_on_disconnect (on_disconnect w ++ [l]) w.
Definition off_disconnect (l : listener) (w : t) : t :=
  with_on_disconnect (List.filter (λ x, negb (listener_eqb x l)) (on_disconnect w)) w.

End SolWallet.

(** What the environment does while a call of the adapter is suspended. *)
Inductive event :=
| transport_connects (pk : SolWallet.PublicKey)
    (* the transport records the key and emits 'connect' *)
| transport_emits_disconnect
| connect_rejects (reason : error)      (* the promise of [wallet.connect()] rejects *)
| disconnect_resolves                   (* the promise of [wallet.disconnect()] resolves *)
| disconnect_rejects (reason : error)   (* ... or rejects *)
| transport_handleDisconnect            (* the transport calls its [handleDisconnect] member *)
| popup_becomes (p : option bool)       (* the transport's [_popup] changes *)
| timer_fires                           (* the runtime fires the next timer of the call
                                           in progress *)
| earlier_timer_fires.                  (* the runtime fires the next of the timers that
                                           earlier calls left armed *)

(** ** The handshake adapter: [class SolletWalletAdapter] *)

Module SolletWalletAdapter.

Open Scope js_scope.

(** [provider?: string | SolletWallet]: a URL, or an object that may or may
    not have a function [postMessage]. *)
Inductive Provider :=
| provider_url (url : string)
| provider_object (postMessage_is_function : bool).

Inductive WalletAdapterNetwork := Mainnet | Testnet | Devnet.

Record SolletWalletAdapterConfig := Config_ {
  provider : option Provider;
  network : option WalletAdapterNetwork;
}.

(** The private fields of the class. *)
Record Adapter := Adapter_ {
  _provider : option Provider;
  _network : WalletAdapterNetwork;
  _connecting : bool;
  _wallet : option SolWallet.t;
}.

Definition constructor (config : SolletWalletAdapterConfig) : Adapter :=
  Adapter_ (provider config) (default Mainnet (network config)) false None.

Definition set_connecting (b : bool) (a : Adapter) : Adapter :=
  Adapter_ (_provider a) (_network a) b (_wallet a).
Definition set_wallet (o : option SolWallet.t) (a : Adapter) : Adapter :=
  Adapter_ (_provider a) (_network a) (_connecting a) o.

(** The getters, lines 304-314. *)
Definition publicKey (a : Adapter) : option SolWallet.PublicKey :=
  match _wallet a with Some wallet => SolWallet.publicKey wallet | None => None end.
Definition connecting (a : Adapter) : bool := _connecting a.
Definition connected (a : Adapter) : bool :=
  match _wallet a with Some wallet => SolWallet.connected wallet | None => false end.

(** What the adapter emits to its own listeners with [this.emit]. *)
Inductive emission :=
| emit_connect
| emit_disconnect
| emit_error (e : error).

(** Promise reactions a race registers on the transport's promises. *)
Inductive reaction :=
| connect_catch      (* [.catch] of lines 377-380 *)
| disconnect_then.   (* [.then] of lines 443-457 *)

(** The locals of the race most recently started, of [connect] (lines
    358-360, 383) or of [disconnect] (lines 430, 433), together with the
    promise the race settles and the timers the call has installed. *)
Record Frame := Frame_ {
  rt : Timers.t;
  wallet : SolWallet.t;
  promise : completion unit;                (* [Awaiting]: not settled *)
  reactions : list reaction;
  handleDisconnect : SolWallet.handler;     (* the saved member *)
  timeout : option nat;
  interval : option nat;
  count : Z;
}.

Definition set_rt v f :=
  Frame_ v (wallet f) (promise f) (reactions f) (handleDisconnect f) (timeout f) (interval f) (count f).
Definition set_frame_wallet v f :=
  Frame_ (rt f) v (promise f) (reactions f) (handleDisconnect f) (timeout f) (interval f) (count f).
Definition set_promise v f :=
  Frame_ (rt f) (wallet f) v (reactions f) (handleDisconnect f) (timeout f) (interval f) (count f).
Definition set_reactions v f :=
  Frame_ (rt f) (wallet f) (promise f) v (handleDisconnect f) (timeout f) (interval f) (count f).
Definition set_timeout v f :=
  Frame_ (rt f) (wallet f) (promise f) (reactions f) (handleDisconnect f) v (interval f) (count f).
Definition set_interval v f :=
  Frame_ (rt f) (wallet f) (promise f) (reactions f) (handleDisconnect f) (timeout f) v (count f).
Definition set_count v f :=
  Frame_ (rt f) (wallet f) (promise f) (reactions f) (handleDisconnect f) (timeout f) (interval f) v.
Definition on_wallet (g : SolWallet.t → SolWallet.t) f := set_frame_wallet (g (wallet f)) f.

(** A promise settles once: later calls of [resolve] and [reject] do
    nothing. *)
Definition resolve (f : Frame) : Frame :=
  match promise f with Awaiting => set_promise (Normal tt) f | _ => f end.
Definition reject (e : error) (f : Frame) : Frame :=
  match promise f with Awaiting => set_promise (Throw e) f | _ => f end.

(** [if (h) clearTimeout(h)] and [if (h) clearInterval(h)] *)
Definition clear_if_set (h : option nat) (f : Frame) : Frame :=
  match h with Some id => set_rt (Timers.clear id (rt f)) f | None => f end.

(** The world of one adapter. *)
Record World := World_ {
  this : Adapter;
  emitted : list emission;     (* oldest first *)
  constructed : list (option Provider * WalletAdapterNetwork);
                               (* transports built by [new SolWalletAdapter.default] *)
  browser : list browser_call; (* oldest first *)
  future : list event;         (* what the environment will do, in order *)
  frame : Frame;
}.

Definition on_this (g : Adapter → Adapter) w :=
  World_ (g (this w)) (emitted w) (constructed w) (browser w) (future w) (frame w).
Definition set_future v w :=
  World_ (this w) (emitted w) (constructed w) (browser w) v (frame w).
Definition set_frame v w :=
  World_ (this w) (emitted w) (constructed w) (browser w) (future w) v.
Definition on_frame (g : Frame → Frame) w := set_frame (g (frame w)) w.

(** [this.emit(...)] *)
Definition emitting (e : emission) (w : World) : World :=
  World_ (this w) (emitted w ++ [e]) (constructed w) (browser w) (future w) (frame w).
Definition emit (e : emission) : M World unit := modify (emitting e).

(** A call on [window]. *)
Definition calling (c : browser_call) (w : World) : World :=
  World_ (this w) (emitted w) (constructed w) (browser w ++ [c]) (future w) (frame w).
Definition call (c : browser_call) : M World unit := modify (calling c).

Definition idle_frame (clock : Z) : Frame :=
  Frame_ (Timers.start clock) SolWallet.fresh Awaiting [] SolWallet.library_handler None None 0.

(** An adapter just constructed, with the future of its environment. *)
Definition initial (config : SolletWalletAdapterConfig) (evs : list event) : World :=
  World_ (constructor config) [] [] [] evs (idle_frame 0).

(** *** The unexpected-disconnect listener, lines 518-528 *)

Definition _disconnected (w : World) : World :=
  match _wallet (this w) with
  | Some _ =>
      (* [wallet.off('disconnect', this._disconnected)] acts on the object
         that the next line drops *)
      let w := on_this (set_wallet None) w in
      let w := emitting (emit_error WalletDisconnectedError) w in
      emitting emit_disconnect w
  | None => w
  end.

(** *** The closures of the connect race, lines 362-399 *)

(** [const connect = () => {...}], lines 363-367 *)
Definition connect_listener (f : Frame) : Frame :=
  let f := clear_if_set (timeout f) f in
  let f := on_wallet (SolWallet.off_connect SolWallet.connect_closure) f in
  resolve f.

(** The replacement of [handleDisconnect], lines 369-373 *)
Definition connect_hook (f : Frame) : Frame :=
  let f := on_wallet (SolWallet.off_connect SolWallet.connect_closure) f in
  let f := reject WalletWindowClosedError f in
  on_wallet (SolWallet.called (SolWallet.handleDisconnect_applied (handleDisconnect f))) f.

(** [(reason) => {...}] given to [.catch], lines 377-380 *)
Definition connect_rejected (reason : error) (f : Frame) : Frame :=
  let f := on_wallet (SolWallet.off_connect SolWallet.connect_closure) f in
  reject reason f.

(** The callback of [setInterval], lines 385-394 *)
Definition poll (f : Frame) : Frame :=
  let f :=
    match SolWallet._popup (wallet f) with
    | Some closed => if closed then reject WalletWindowClosedError f else f
    | None => if (50 <? count f)%Z then reject WalletWindowBlockedError f else f
    end in
  set_count (count f + 1)%Z f.

(** The callback of [setTimeout], line 397 *)
Definition timed_out (f : Frame) : Frame := reject WalletTimeoutError f.

(** [typeof provider === 'string'] *)
Definition is_string (p : option Provider) : bool :=
  match p with Some (provider_url _) => true | _ => false end.

(** Line 358 and the executor of the promise, lines 362-399, in the
    runtime [rt0] that the call finds. *)
Definition handshake_executor (provider : option Provider) (wallet : SolWallet.t)
    (rt0 : Timers.t) : Frame :=
  let f := Frame_ (Timers.renew rt0) wallet Awaiting []
             (SolWallet.handleDisconnect wallet) None None 0 in
  let f := on_wallet (SolWallet.with_handleDisconnect SolWallet.connect_hook) f in
  let f := on_wallet (SolWallet.on_connect_add SolWallet.connect_closure) f in
  let f := on_wallet (SolWallet.called SolWallet.connect_called) f in
  let f := set_reactions (reactions f ++ [connect_catch]) f in
  if is_string provider then
    let '(rt', id) := Timers.setInterval Timers.poll 100 (rt f) in
    set_interval (Some id) (set_rt rt' f)
  else
    let '(rt', id) := Timers.setTimeout Timers.connect_timeout 10000 (rt f) in
    set_timeout (Some id) (set_rt rt' f).

(** The [finally] of lines 400-403. *)
Definition handshake_cleanup (f : Frame) : Frame :=
  let f := on_wallet (SolWallet.with_handleDisconnect (handleDisconnect f)) f in
  clear_if_set (interval f) f.

(** *** The closures of the disconnect race, lines 432-458 *)

(** [() => resolve()] of line 433 *)
Definition grace_over (f : Frame) : Frame := resolve f.

(** The replacement of [handleDisconnect], lines 435-441 *)
Definition disconnect_hook (f : Frame) : Frame :=
  let f := clear_if_set (timeout f) f in
  let f := resolve f in
  let f := on_wallet (SolWallet.called SolWallet.responsePromises_replaced) f in
  on_wallet (SolWallet.called (SolWallet.handleDisconnect_applied (handleDisconnect f))) f.

(** The two functions given to [.then], lines 444-456 *)
Definition disconnect_resolved (f : Frame) : Frame :=
  let f := clear_if_set (timeout f) f in
  resolve f.

Definition disconnect_rejected (error : error) (f : Frame) : Frame :=
  let f := clear_if_set (timeout f) f in
  if decide (message error = Some "Wallet disconnected") then resolve f
  else reject error f.

(** Line 430 and the executor of the promise, lines 432-458, in the
    runtime [rt0] that the call finds. *)
Definition teardown_executor (wallet : SolWallet.t) (rt0 : Timers.t) : Frame :=
  let f := Frame_ (Timers.renew rt0) wallet Awaiting []
             (SolWallet.handleDisconnect wallet) None None 0 in
  let '(rt', id) := Timers.setTimeout Timers.grace 250 (rt f) in
  let f := set_timeout (Some id) (set_rt rt' f) in
  let f := on_wallet (SolWallet.with_handleDisconnect SolWallet.disconnect_hook) f in
  let f := on_wallet (SolWallet.called SolWallet.disconnect_called) f in
  set_reactions (reactions f ++ [disconnect_then]) f.

(** The [finally] of lines 461-463. *)
Definition teardown_cleanup (f : Frame) : Frame :=
  on_wallet (SolWallet.with_handleDisconnect (handleDisconnect f)) f.

(** *** The event loop while a race is awaited *)

Definition has_reaction (r : reaction) (f : Frame) : bool :=
  existsb (λ x, match x, r with
                | connect_catch, connect_catch
                | disconnect_then, disconnect_then => true
                | _, _ => false
                end) (reactions f).

Definition run_listener (w : World) (l : SolWallet.listener) : World :=
  match l with
  | SolWallet.connect_closure => on_frame connect_listener w
  | SolWallet._disconnected => _disconnected w
  end.

Definition run_callback (c : Timers.callback) (f : Frame) : Frame :=
  match c with
  | Timers.poll => poll f
  | Timers.connect_timeout => timed_out f
  | Timers.grace => grace_over f
  end.

(** One task of the event loop, run to completion. *)
Definition deliver (ev : event) (w : World) : World :=
  match ev with
  | transport_connects pk =>
      let w := on_frame (on_wallet (SolWallet.with_identity (Some pk) true)) w in
      foldl run_listener w (SolWallet.on_connect (wallet (frame w)))
  | transport_emits_disconnect =>
      foldl run_listener w (SolWallet.on_disconnect (wallet (frame w)))
  | connect_rejects reason =>
      if has_reaction connect_catch (frame w)
      then on_frame (connect_rejected reason) w else w
  | disconnect_resolves =>
      if has_reaction disconnect_then (frame w)
      then on_frame disconnect_resolved w else w
  | disconnect_rejects reason =>
      if has_reaction disconnect_then (frame w)
      then on_frame (disconnect_rejected reason) w else w
  | transport_handleDisconnect =>
      match SolWallet.handleDisconnect (wallet (frame w)) with
      | SolWallet.library_handler =>
          on_frame (on_wallet (SolWallet.called
            (SolWallet.handleDisconnect_applied SolWallet.library_handler))) w
      | SolWallet.connect_hook => on_frame connect_hook w
      | SolWallet.disconnect_hook => on_frame disconnect_hook w
      end
  | popup_becomes p => on_frame (on_wallet (SolWallet.with_popup p)) w
  | timer_fires =>
      match Timers.fire (rt (frame w)) with
      | Some (c, rt') => on_frame (λ f, run_callback c (set_rt rt' f)) w
      | None => w
      end
  | earlier_timer_fires => on_frame (λ f, set_rt (Timers.lapse (rt f)) f) w
  end.

(** Tasks are delivered until the promise of the race has settled; the
    continuation of the [await] then runs before any further task. *)
Fixpoint settle (evs : list event) (w : World) : World :=
  match promise (frame w) with
  | Awaiting =>
      match evs with
      | [] => set_future [] w
      | ev :: evs' => settle evs' (deliver ev w)
      end
  | _ => set_future evs w
  end.

(** [await new Promise((resolve, reject) => {...})] once the executor has
    run. *)
Definition await_race : M World unit :=
  λ w, let w' := settle (future w) w in (w', promise (frame w')).

(** *** [ready()], lines 316-331 *)

(** What [ready()] sees of the page.  [sollet] is [window.sollet] when the
    adapter reads it: [Some b] is an object whose [postMessage] is a
    function exactly when [b]. *)
Record Page := Page_ {
  window_defined : bool;
  document_defined : bool;
  readyState_complete : bool;
  load_fires : bool;          (* whether the 'load' event ever arrives *)
  sollet : option bool;
}.

(** [typeof window.sollet?.postMessage === 'function'] *)
Definition sollet_injected (page : Page) : bool := default false (sollet page).

Definition ready (page : Page) : M World bool :=
  let* a := gets this in
  if negb (window_defined page) || negb (document_defined page) then ret false
  else if is_string (_provider a)
          || match _provider a with Some (provider_object b) => b | _ => false end
  then ret true
  else if readyState_complete page then ret (sollet_injected page)
  else
    call (window_addEventListener "load") >>
    if load_fires page then
      call (window_removeEventListener "load") >>
      ret (sollet_injected page)
    else await Awaiting.

(** *** [connect()], lines 333-420 *)

(** What the environment answers to one call of [connect]. *)
Record Env := Env_ {
  page : Page;
  imported : completion unit;      (* [await import('@project-serum/sol-wallet-adapter')] *)
  construction : option error;     (* [Some e]: the constructor throws [e] *)
}.

(** JavaScript truthiness of [this._provider]: the empty string and
    [undefined] are falsy. *)
Definition truthy (p : option Provider) : bool :=
  match p with
  | Some (provider_url url) => negb (String.eqb url "")
  | Some (provider_object _) => true
  | None => false
  end.

(** [this._provider || window!.sollet!] *)
Definition provider_or_sollet (a : Adapter) (page : Page) : option Provider :=
  if truthy (_provider a) then _provider a else provider_object <$> sollet page.

(** [new SolWalletAdapter.default(provider, this._network)] *)
Definition new_SolWalletAdapter (env : Env) (provider : option Provider)
    (network : WalletAdapterNetwork) : M World SolWallet.t :=
  match construction env with
  | Some e => throw e
  | None =>
      modify (λ w, World_ (this w) (emitted w) (constructed w ++ [(provider, network)])
                          (browser w) (future w) (frame w))
      >> ret SolWallet.fresh
  end.

(** Lines 356-403: the race and its [finally]. *)
Definition handshake (provider : option Provider) (built : SolWallet.t)
    : M World SolWallet.t :=
  try_finally
    (modify (λ w, set_frame (handshake_executor provider built (rt (frame w))) w)
     >> await_race)
    (modify (on_frame handshake_cleanup))
  >> gets (λ w, wallet (frame w)).

Definition connect (env : Env) : M World unit :=
  try_finally
    (try_catch
       (let* a := gets this in
        if connected a || connecting a then ret tt else
        modify (on_this (set_connecting true)) >>
        let* is_ready := ready (page env) in
        if negb is_ready then throw WalletNotReadyError else
        let provider := provider_or_sollet a (page env) in
        try_catch (await (imported env))
          (λ error, throw (WalletLoadError (message error) error)) >>
        let* wallet :=
          try_catch (new_SolWalletAdapter env provider (_network a))
            (λ error, throw (WalletConfigError (message error) error)) in
        let* wallet :=
          try_catch (handshake provider wallet)
            (λ error, if instanceof_WalletError error then throw error
                      else throw (WalletConnectionError (message error) error)) in
        let wallet := SolWallet.on_disconnect_add SolWallet._disconnected wallet in
        modify (on_this (set_wallet (Some wallet))) >>
        emit emit_connect)
       (λ error, emit (emit_error error) >> throw error))
    (modify (on_this (set_connecting false))).

(** *** [disconnect()], lines 422-467 *)

Definition disconnect : M World unit :=
  (let* a := gets this in
   match _wallet a with
   | Some wallet =>
       let wallet := SolWallet.off_disconnect SolWallet._disconnected wallet in
       modify (on_this (set_wallet None)) >>
       try_finally
         (try_catch
            (modify (λ w, set_frame (teardown_executor wallet (rt (frame w))) w)
             >> await_race)
            (λ error, emit (emit_error (WalletDisconnectionError (message error) error))))
         (modify (on_frame teardown_cleanup))
   | None => ret tt
   end)
  >> emit emit_disconnect.

(** *** [signTransaction] and [signAllTransactions], lines 469-499 *)

Section Signing.

Context {Transaction : Type}.
(** The transport's two signing methods: what their promise settles to,
    [None] being [null] or [undefined]. *)
Variable wallet_signTransaction : Transaction → completion (option Transaction).
Variable wallet_signAllTransactions :
  list Transaction → completion (option (list Transaction)).

Definition signTransaction (transaction : Transaction) : M World Transaction :=
  try_catch
    (let* a := gets this in
     match _wallet a with
     | None => throw WalletNotConnectedError
     | Some _ =>
         try_catch
           (let* signed := await (wallet_signTransaction transaction) in
            ret (default transaction signed))
           (λ error, throw (WalletSignTransactionError (message error) error))
     end)
    (λ error, emit (emit_error error) >> throw error).

Definition signAllTransactions (transactions : list Transaction)
    : M World (list Transaction) :=
  try_catch
    (let* a := gets this in
     match _wallet a with
     | None => throw WalletNotConnectedError
     | Some _ =>
         try_catch
           (let* signed := await (wallet_signAllTransactions transactions) in
            ret (default transactions signed))
           (λ error, throw (WalletSignTransactionError (message error) error))
     end)
    (λ error, emit (emit_error error) >> throw error).

End Signing.

(** *** [signMessage], lines 501-516 *)

Section MessageSigning.

Context {Message Signed Bytes : Type}.
(** The transport's [sign(message, 'utf8')]: what its promise settles to. *)
Variable wallet_sign : Message → completion Signed.
(** [const { signature } = ...] and [Uint8Array.from(signature)]: the bytes
    of the answer, or the error thrown when the answer has no [signature]
    that can be read. *)
Variable signature_bytes : Signed → error + Bytes.

Definition signMessage (data : Message) : M World Bytes :=
  try_catch
    (let* a := gets this in
     match _wallet a with
     | None => throw WalletNotConnectedError
     | Some _ =>
         try_catch
           (let* signed := await (wallet_sign data) in
            match signature_bytes signed with
            | inr signature => ret signature
            | inl error => throw error
            end)
           (λ error, throw (WalletSignMessageError (message error) error))
     end)
    (λ error, emit (emit_error error) >> throw error).

End MessageSigning.

End SolletWalletAdapter.

(** ** The connection orchestrator: [const WalletProvider] *)

Module WalletProvider.

Open Scope js_scope.

Definition WalletName := string.
Definition PublicKey := string.

(** An adapter instance, as the reference the component holds.  Its
    properties are read through the store of adapter objects. *)
Definition AdapterRef := nat.

Record AdapterView := View {
  adapter_ready : bool;
  adapter_autoApprove : bool;
  adapter_publicKey : option PublicKey;
}.

(** A [Wallet] of [@solana/wallet-adapter-wallets]: its name, its help URL,
    and the factory [adapter()], whose calls appear in the trace. *)

Module Wallet.

Record t := Make { name : WalletName; url : string }.

End Wallet.

Inductive event_name := ev_ready | ev_connect | ev_disconnect | ev_error.

(** What a stretch of the component's code does, in program order: calls
    of the state setters, of the error sink, of the browser and of the
    adapter. *)
Inductive action :=
| setName (v : option WalletName)
| setWallet (v : option Wallet.t)
| setAdapter (v : option AdapterRef)
| setReady (v : bool)
| setConnecting (v : bool)
| setDisconnecting (v : bool)
| setConnected (v : bool)
| setAutoApprove (v : bool)
| setPublicKey (v : option PublicKey)
| onError (e : error)
| browser (c : browser_call)
| wallet_adapter (w : WalletName)            (* [wallet.adapter()] *)
| adapter_on (a : AdapterRef) (ev : event_name)
| adapter_off (a : AdapterRef) (ev : event_name)
| adapter_connect (a : AdapterRef)
| adapter_disconnect (a : AdapterRef)
| adapter_sendTransaction (a : AdapterRef).

Definition tell (a : action) : M (list action) unit := modify (λ t, t ++ [a]).

(** The trace of a stretch and how it completes. *)
Definition trace {A} (m : M (list action) A) : list action := fst (m []).
Definition outcome {A} (m : M (list action) A) : completion A := snd (m []).

(** The values of the hooks, lines 29-37. *)
Record State := State_ {
  name : option WalletName;
  wallet : option Wallet.t;
  adapter : option AdapterRef;
  ready : bool;
  connecting : bool;
  disconnecting : bool;
  connected : bool;
  autoApprove : bool;
  publicKey : option PublicKey;
}.

Definition initial (stored : option WalletName) : State :=
  State_ stored None None false false false false false None.

(** The effect of a setter on the hook values; other actions leave them. *)
Definition apply (s : State) (a : action) : State :=
  match a with
  | setName v => State_ v (wallet s) (adapter s) (ready s) (connecting s) (disconnecting s) (connected s) (autoApprove s) (publicKey s)
  | setWallet v => State_ (name s) v (adapter s) (ready s) (connecting s) (disconnecting s) (connected s) (autoApprove s) (publicKey s)
  | setAdapter v => State_ (name s) (wallet s) v (ready s) (connecting s) (disconnecting s) (connected s) (autoApprove s) (publicKey s)
  | setReady v => State_ (name s) (wallet s) (adapter s) v (connecting s) (disconnecting s) (connected s) (autoApprove s) (publicKey s)
  | setConnecting v => State_ (name s) (wallet s) (adapter s) (ready s) v (disconnecting s) (connected s) (autoApprove s) (publicKey s)
  | setDisconnecting v => State_ (name s) (wallet s) (adapter s) (ready s) (connecting s) v (connected s) (autoApprove s) (publicKey s)
  | setConnected v => State_ (name s) (wallet s) (adapter s) (ready s) (connecting s) (disconnecting s) v (autoApprove s) (publicKey s)
  | setAutoApprove v => State_ (name s) (wallet s) (adapter s) (ready s) (connecting s) (disconnecting s) (connected s) v (publicKey s)
  | setPublicKey v => State_ (name s) (wallet s) (adapter s) (ready s) (connecting s) (disconnecting s) (connected s) (autoApprove s) v
  | _ => s
  end.

Definition run (s : State) (t : list action) : State := foldl apply s t.

(** The states the hooks pass through while a trace is carried out, the
    first one included. *)
Fixpoint states_along (s : State) (t : list action) : list State :=
  s :: match t with
       | [] => []
       | a :: t' => states_along (apply s a) t'
       end.

(** [walletsByName], lines 39-46: a later wallet of the same name replaces
    an earlier one.  Names are taken to be values of the enumeration
    [WalletName], as the types of the source have it, the stored name
    included: none of them names a member that a plain object inherits. *)
Definition walletsByName (wallets : list Wallet.t) : gmap string Wallet.t :=
  foldl (λ byName w, <[Wallet.name w := w]> byName) ∅ wallets.

Section Callbacks.

(** The closures of one render: [s] holds the hook values they captured. *)
Variable s : State.

(** [select], lines 48-55; [disconnected] is what
    [await adapter.disconnect()] completes with. *)
Definition select (disconnected : completion unit) (selected : option WalletName)
    : M (list action) unit :=
  if decide (name s = selected) then ret tt else
  match adapter s with
  | Some a => tell (adapter_disconnect a) >> await disconnected
  | None => ret tt
  end >>
  tell (setName selected).

(** [reset], lines 57-64 *)
Definition reset : M (list action) unit :=
  tell (setReady false) >>
  tell (setConnecting false) >>
  tell (setDisconnecting false) >>
  tell (setConnected false) >>
  tell (setAutoApprove false) >>
  tell (setPublicKey None).

(** [onReady], [onConnect] and [onDisconnect], lines 66-76; [live] reads
    the adapter object. *)
Definition onReady : M (list action) unit := tell (setReady true).

Definition onConnect (live : AdapterRef → AdapterView) : M (list action) unit :=
  match adapter s with
  | None => ret tt
  | Some a =>
      tell (setConnected true) >>
      tell (setAutoApprove (adapter_autoApprove (live a))) >>
      tell (setPublicKey (adapter_publicKey (live a)))
  end.

Definition onDisconnect : M (list action) unit := reset.

(** [connect], lines 78-100; [connecting_result] is what
    [await adapter.connect()] completes with. *)
Definition connect (connecting_result : completion unit) : M (list action) unit :=
  if connecting s || disconnecting s || connected s then ret tt else
  match wallet s, adapter s with
  | Some wallet, Some adapter =>
      if negb (ready s) then
        tell (browser (window_open (Wallet.url wallet) "_blank")) >>
        let error := WalletNotReadyError in
        tell (onError error) >>
        throw error
      else
        tell (setConnecting true) >>
        try_finally
          (tell (adapter_connect adapter) >> await connecting_result)
          (tell (setConnecting false))
  | _, _ =>
      let error := WalletNotSelectedError in
      tell (onError error) >>
      throw error
  end.

(** [disconnect], lines 102-117; [disconnected] answers the call of line
    112 and [again] the one inside [select]. *)
Definition disconnect (disconnected again : completion unit) : M (list action) unit :=
  if disconnecting s then ret tt else
  match adapter s with
  | None => select again None
  | Some adapter =>
      tell (setDisconnecting true) >>
      try_finally
        (tell (adapter_disconnect adapter) >> await disconnected)
        (tell (setDisconnecting false) >> select again None)
  end.

(** [sendTransaction], lines 119-135; [sent] is what
    [await adapter.sendTransaction(...)] completes with. *)
Definition sendTransaction {Signature : Type} (sent : completion Signature)
    : M (list action) Signature :=
  match adapter s with
  | None =>
      let error := WalletNotSelectedError in
      tell (onError error) >>
      throw error
  | Some adapter =>
      if negb (connected s) then
        let error := WalletNotConnectedError in
        tell (onError error) >>
        throw error
      else
        tell (adapter_sendTransaction adapter) >> await sent
  end.

(** [signTransaction], [signAllTransactions] and [signMessage], lines
    137-183: [undefined] unless there is an adapter that has the method.
    The argument reads the method off the adapter object, [None] when the
    object has no such member; a call of the method is a stretch of its
    own. *)
Definition signTransaction {Transaction : Type}
    (adapter_signTransaction :
       AdapterRef → option (Transaction → M (list action) Transaction))
    : option (Transaction → M (list action) Transaction) :=
  match adapter s with
  | Some adapter =>
      match adapter_signTransaction adapter with
      | Some sign =>
          Some (λ transaction,
            if negb (connected s) then
              let error := WalletNotConnectedError in
              tell (onError error) >>
              throw error
            else sign transaction)
      | None => None
      end
  | None => None
  end.

Definition signAllTransactions {Transaction : Type}
    (adapter_signAllTransactions :
       AdapterRef → option (list Transaction → M (list action) (list Transaction)))
    : option (list Transaction → M (list action) (list Transaction)) :=
  match adapter s with
  | Some adapter =>
      match adapter_signAllTransactions adapter with
      | Some sign =>
          Some (λ transactions,
            if negb (connected s) then
              let error := WalletNotConnectedError in
              tell (onError error) >>
              throw error
            else sign transactions)
      | None => None
      end
  | None => None
  end.

Definition signMessage {Message Signed : Type}
    (adapter_signMessage : AdapterRef → option (Message → M (list action) Signed))
    : option (Message → M (list action) Signed) :=
  match adapter s with
  | Some adapter =>
      match adapter_signMessage adapter with
      | Some sign =>
          Some (λ message,
            if negb (connected s) then
              let error := WalletNotConnectedError in
              tell (onError error) >>
              throw error
            else sign message)
      | None => None
      end
  | None => None
  end.

(** The effect of lines 198-211 and the cleanup it returns. *)
Definition subscribe : M (list action) unit :=
  match adapter s with
  | Some a =>
      tell (adapter_on a ev_ready) >> tell (adapter_on a ev_connect) >>
      tell (adapter_on a ev_disconnect) >> tell (adapter_on a ev_error)
  | None => ret tt
  end.

Definition unsubscribe : M (list action) unit :=
  match adapter s with
  | Some a =>
      tell (adapter_off a ev_ready) >> tell (adapter_off a ev_connect) >>
      tell (adapter_off a ev_disconnect) >> tell (adapter_off a ev_error)
  | None => ret tt
  end.

(** The effect of lines 214-227. *)
Definition autoConnect_effect (autoConnect : bool) (connecting_result : completion unit)
    : M (list action) unit :=
  match adapter s with
  | Some a =>
      if autoConnect && ready s then
        tell (setConnecting true) >>
        try_finally
          (try_catch (tell (adapter_connect a) >> await connecting_result)
                     (λ _, ret tt))
          (tell (setConnecting false))
      else ret tt
  | None => ret tt
  end.

End Callbacks.

(** The effect of lines 186-195, run when [name] has changed.  [fresh] is
    the instance that [wallet.adapter()] returns and [live] reads it. *)
Definition name_effect (wallets : list Wallet.t) (live : AdapterRef → AdapterView)
    (fresh : AdapterRef) (name : option WalletName) : M (list action) unit :=
  reset >>
  let wallet :=
    match name with
    | Some n => if String.eqb n "" then None else walletsByName wallets !! n
    | None => None
    end in
  let* adapter :=
    match wallet with
    | Some w => tell (wallet_adapter (Wallet.name w)) >> ret (Some fresh)
    | None => ret None
    end in
  tell (setWallet wallet) >>
  tell (setAdapter adapter) >>
  tell (setReady match adapter with
                 | Some a => adapter_ready (live a)
                 | None => false
                 end).

(** *** The hook values over time *)

(** What a call does once the [await] it was suspended at has settled: its
    trace without the part that ran before the [await]. *)
Definition resumed {A} (full waiting : M (list action) A) : list action :=
  drop (length (trace waiting)) (trace full).

(** What the callers of the component and the scheduling of its effects
    may be assumed to respect, each on the hook values of the moment. *)
Record Discipline := Discipline_ {
  (* [connect] is only called while [disconnecting] is false *)
  connect_waits : bool;
  (* [disconnect] is only called while [connecting] is false *)
  disconnect_waits : bool;
  (* the auto-connect effect only runs while [disconnecting] is false *)
  autoConnect_waits : bool;
}.

Definition careful : Discipline := Discipline_ true true true.

(** One uninterrupted stretch of the component's code, started when the
    hooks hold [s]: a callback called up to its first [await], a listener
    run for an adapter event, or an effect, each a closure of a render and
    reading the hook values [r] which that render captured, not [s]; or a
    call resumed after an [await] (with the hook values [s0] it captured
    when it was made). *)
Inductive stretch (d : Discipline) (autoConnect : bool) (wallets : list Wallet.t)
    : State → State → list action → Prop :=
| connect_called r s :
    (connect_waits d = true → disconnecting s = false) →
    stretch d autoConnect wallets r s (trace (connect r Awaiting))
| connect_resumed r s s0 c :
    stretch d autoConnect wallets r s
      (resumed (connect s0 c) (connect s0 Awaiting))
| disconnect_called r s :
    (disconnect_waits d = true → connecting s = false) →
    stretch d autoConnect wallets r s (trace (disconnect r Awaiting Awaiting))
| disconnect_resumed r s s0 c again :
    stretch d autoConnect wallets r s
      (resumed (disconnect s0 c again) (disconnect s0 Awaiting Awaiting))
| select_called r s selected :
    stretch d autoConnect wallets r s (trace (select r Awaiting selected))
| select_resumed r s s0 c selected :
    stretch d autoConnect wallets r s
      (resumed (select s0 c selected) (select s0 Awaiting selected))
| sendTransaction_called r s (sent : completion string) :
    stretch d autoConnect wallets r s (trace (sendTransaction r sent))
| adapter_emits_ready r s :
    stretch d autoConnect wallets r s (trace onReady)
| adapter_emits_connect r s live :
    stretch d autoConnect wallets r s (trace (onConnect r live))
| adapter_emits_disconnect r s :
    stretch d autoConnect wallets r s (trace onDisconnect)
| name_changed r s live fresh :
    stretch d autoConnect wallets r s
      (trace (name_effect wallets live fresh (name r)))
| adapter_changed r s s0 :
    stretch d autoConnect wallets r s (trace (unsubscribe s0 >> subscribe r))
| autoConnect_started r s :
    (autoConnect_waits d = true → disconnecting s = false) →
    stretch d autoConnect wallets r s
      (trace (autoConnect_effect r autoConnect Awaiting))
| autoConnect_resumed r s s0 c :
    stretch d autoConnect wallets r s
      (resumed (autoConnect_effect s0 autoConnect c)
               (autoConnect_effect s0 autoConnect Awaiting)).

(** The hook values that can be observed, with the renders there have
    been, the latest first: the component renders the values that the
    hooks hold, at first the initial ones, and the closures of every render
    stay callable; the values passed through along a stretch are
    observable. *)
Inductive reachable (d : Discipline) (autoConnect : bool) (wallets : list Wallet.t)
    : list State → State → Prop :=
| reachable_initial stored :
    reachable d autoConnect wallets [initial stored] (initial stored)
| reachable_render rendered s :
    reachable d autoConnect wallets rendered s →
    reachable d autoConnect wallets (s :: rendered) s
| reachable_along rendered r s t s' :
    reachable d autoConnect wallets rendered s →
    r ∈ rendered →
    stretch d autoConnect wallets r s t →
    s' ∈ states_along s t →
    reachable d autoConnect wallets rendered s'.

(** At most one of the two flags is up. *)
Definition exclusive (s : State) : Prop :=
  ¬ (connecting s = true ∧ disconnecting s = true).

(** An action that raises neither flag. *)
Definition calm (a : action) : Prop :=
  a ≠ setConnecting true ∧ a ≠ setDisconnecting true.

(** The six fields that describe the connection. *)
Definition connection_fields (s : State)
    : bool * bool * bool * bool * bool * option PublicKey :=
  (ready s, connecting s, disconnecting s, connected s, autoApprove s, publicKey s).

(** The part of a trace that comes before the first call of
    [wallet.adapter()]: all of it when there is none. *)
Fixpoint until_construction (t : list action) : list action :=
  match t with
  | [] => []
  | wallet_adapter _ :: _ => []
  | a :: t' => a :: until_construction t'
  end.

(** Shows that no action of an explicit trace raises a flag. *)
Ltac calm_trace := repeat constructor; discriminate.

End WalletProvider.

(** ** Races in progress *)

(** The shapes a race passes through, in which the invariants of the event
    loop are stated. *)
Module Race.

Import SolletWalletAdapter.

(** Everything of the world but the frame of the race and the future. *)
Definition outside (w : World)
    : Adapter * list emission * list (option Provider * WalletAdapterNetwork)
      * list browser_call :=
  (this w, emitted w, constructed w, browser w).

(** The transport on which the executor of [connect] has run. *)
Definition hooked (built : SolWallet.t) : SolWallet.t :=
  SolWallet.called SolWallet.connect_called
    (SolWallet.on_connect_add SolWallet.connect_closure
       (SolWallet.with_handleDisconnect SolWallet.connect_hook built)).

(** The frame of a handshake of the popup flow, started at [clock] with the
    timers [stale] left by earlier calls, after [k] runs of the probe that
    left it unsettled. *)
Definition polling (clock : Z) (stale : list Timers.timer) (k : nat)
    (wallet : SolWallet.t) (saved : SolWallet.handler) : Frame :=
  Frame_
    (Timers.Runtime (clock + 100 * Z.of_nat k) 2
       [Timers.Timer 1 (clock + 100 * Z.of_nat (S k)) (Some 100%Z) Timers.poll]
       stale)
    wallet Awaiting [connect_catch] saved None (Some 1) (Z.of_nat k).

(** The frame of a handshake of the extension flow, started at [clock] with
    the timers [stale] left by earlier calls. *)
Definition timing (clock : Z) (stale : list Timers.timer) (wallet : SolWallet.t)
    (saved : SolWallet.handler) : Frame :=
  Frame_
    (Timers.Runtime clock 2
       [Timers.Timer 1 (clock + 10000) None Timers.connect_timeout]
       stale)
    wallet Awaiting [connect_catch] saved (Some 1) None 0.

(** No timer is armed: neither by the call in progress nor by an earlier
    one. *)
Definition unarmed (rt : Timers.t) : Prop :=
  Timers.pending rt = [] ∧ Timers.earlier rt = [].

(** The timers that a call finds armed when it starts. *)
Definition found_armed (rt : Timers.t) : list Timers.timer :=
  Timers.earlier rt ++ Timers.pending rt.

(** While the race of [disconnect] is unsettled, its grace timer is the one
    timer that the call has pending. *)
Definition grace_armed (f : Frame) : Prop :=
  promise f = Awaiting →
  ∃ id due, Timers.pending (rt f) = [Timers.Timer id due None Timers.grace].

(** The promise of the race has settled. *)
Definition settled (f : Frame) : Prop := promise f ≠ Awaiting.

(** From [f] to [f'] the saved member and the handle of the probe are kept
    and the call has no timer pending that is not one of [f], armed again
    or not. *)
Definition narrows (f f' : Frame) : Prop :=
  handleDisconnect f' = handleDisconnect f ∧
  interval f' = interval f ∧
  ∀ tm, tm ∈ Timers.pending (rt f') →
    ∃ tm0, tm0 ∈ Timers.pending (rt f) ∧
           Timers.tid tm = Timers.tid tm0 ∧ Timers.cb tm = Timers.cb tm0.

(** The popup flow: a URL that is not the empty string is configured. *)
Definition popup_flow (a : Adapter) : Prop :=
  ∃ url, _provider a = Some (provider_url url) ∧ url ≠ EmptyString.

(** The extension flow: an injected object is configured, or nothing is and
    the loaded page has [window.sollet]. *)
Definition extension_flow (a : Adapter) (page : Page) : Prop :=
  _provider a = Some (provider_object true) ∨
  (_provider a = None ∧ readyState_complete page = true ∧ sollet page = Some true).

(** How [connect] ends once the race of its handshake stands as in [w1]:
    lines 400-419. *)
Definition conclude (w1 : World) : World * completion unit :=
  match promise (frame w1) with
  | Awaiting => (w1, Awaiting)
  | Normal _ =>
      (on_this (set_connecting false)
         (emitting emit_connect
            (on_this
               (set_wallet
                  (Some (SolWallet.on_disconnect_add SolWallet._disconnected
                           (wallet (handshake_cleanup (frame w1))))))
               (on_frame handshake_cleanup w1))),
       Normal tt)
  | Throw e =>
      let e' := if instanceof_WalletError e then e
                else WalletConnectionError (message e) e in
      (on_this (set_connecting false)
         (emitting (emit_error e') (on_frame handshake_cleanup w1)),
       Throw e')
  end.

(** The world in which the executor of the handshake has just run. *)
Definition racing (w : World) (provider : option Provider) (f : Frame) : World :=
  World_ (set_connecting true (this w)) (emitted w)
    (constructed w ++ [(provider, _network (this w))]) (browser w) (future w) f.

(** How [connect] ends when it throws [e] outside the race: lines 414-419. *)
Definition failed (w1 : World) (e : error) : World * completion unit :=
  (on_this (set_connecting false) (emitting (emit_error e) w1), Throw e).

(** [connect] past the guard of line 335, stage by stage: the readiness
    check, the import, the constructor and the race. *)
Definition staged (env : Env) (w : World) : World * completion unit :=
  match ready (page env) (on_this (set_connecting true) w) with
  | (w1, Normal true) =>
      match imported env with
      | Normal _ =>
          match construction env with
          | None =>
              let provider := provider_or_sollet (this w) (page env) in
              conclude
                (settle (future w1)
                   (racing w1 provider
                      (handshake_executor provider SolWallet.fresh
                         (rt (frame w1)))))
          | Some e => failed w1 (WalletConfigError (message e) e)
          end
      | Throw e => failed w1 (WalletLoadError (message e) e)
      | Awaiting => (w1, Awaiting)
      end
  | (w1, Normal false) => failed w1 WalletNotReadyError
  | (w1, Throw e) => failed w1 e
  | (w1, Awaiting) => (w1, Awaiting)
  end.

(** The frame of a handshake on a new transport, under way or settled: the
    member [handleDisconnect] is intercepted and the library's is saved;
    the one listener there can be is the closure on 'connect'; every
    timer that the call has pending is the probe or the timeout, held by
    its handle; and the race has only resolved once the transport was
    connected, with the listener and the timeout gone. *)
Definition handshaking (f : Frame) : Prop :=
  reactions f = [connect_catch] ∧
  handleDisconnect f = SolWallet.library_handler ∧
  SolWallet.handleDisconnect (wallet f) = SolWallet.connect_hook ∧
  SolWallet.on_disconnect (wallet f) = [] ∧
  (SolWallet.on_connect (wallet f) = [SolWallet.connect_closure] ∨
   SolWallet.on_connect (wallet f) = []) ∧
  (∀ tm, tm ∈ Timers.pending (rt f) →
     (Timers.cb tm = Timers.poll ∧ interval f = Some (Timers.tid tm)) ∨
     (Timers.cb tm = Timers.connect_timeout ∧ timeout f = Some (Timers.tid tm))) ∧
  (promise f = Normal tt →
     SolWallet.connected (wallet f) = true ∧
     is_Some (SolWallet.publicKey (wallet f)) ∧
     SolWallet.on_connect (wallet f) = [] ∧
     ∀ tm, tm ∈ Timers.pending (rt f) → Timers.cb tm = Timers.poll).

(** The frame of a teardown on a session that [connect] has left, under way
    or settled: the member [handleDisconnect] is intercepted and [saved] is
    the one it had; no listener is left on the transport; and the grace
    timer is the one timer that the call has pending until the race
    settles, after which it has none. *)
Definition tearing (saved : SolWallet.handler) (f : Frame) : Prop :=
  reactions f = [disconnect_then] ∧
  handleDisconnect f = saved ∧
  SolWallet.handleDisconnect (wallet f) = SolWallet.disconnect_hook ∧
  SolWallet.on_connect (wallet f) = [] ∧
  SolWallet.on_disconnect (wallet f) = [] ∧
  match promise f with
  | Awaiting =>
      ∃ id due, timeout f = Some id ∧
                Timers.pending (rt f) = [Timers.Timer id due None Timers.grace]
  | _ => Timers.pending (rt f) = []
  end.

(** The frame of a handshake of the extension flow that started at
    [clock]: until the race settles, the timeout is the one timer that the
    call has pending, due 10 s after the start. *)
Definition timed (clock : Z) (f : Frame) : Prop :=
  promise f = Awaiting →
  timeout f = Some 1 ∧
  Timers.pending (rt f)
    = [Timers.Timer 1 (clock + 10000) None Timers.connect_timeout].

(** The tasks [evs] of the event loop, run one after the other while no
    call is suspended. *)
Definition later (evs : list event) (w : World) : World :=
  foldl (λ w ev, deliver ev w) w evs.

(** The worlds of an adapter whose calls are made one after the other:
    each call of [connect] or [disconnect] has ended, by returning or by
    throwing, before the next is made, and between two calls the
    environment does what it will.  In such a world no call is suspended,
    so that no task resumes one. *)
Inductive sequential : World → Prop :=
| sequential_initial config evs : sequential (initial config evs)
| sequential_connect env w :
    sequential w → snd (connect env w) ≠ Awaiting →
    sequential (fst (connect env w))
| sequential_disconnect w :
    sequential w → snd (disconnect w) ≠ Awaiting →
    sequential (fst (disconnect w))
| sequential_later evs w : sequential w → sequential (later evs w)
| sequential_future evs w : sequential w → sequential (set_future evs w).

(** What a call leaves to be seen: everything but the recorded future. *)
Definition seen (w : World)
    : Adapter * list emission * list (option Provider * WalletAdapterNetwork)
      * list browser_call * Frame :=
  (outside w, frame w).

(** [typeof this._provider?.postMessage === 'function'] *)
Definition has_postMessage (p : option Provider) : bool :=
  match p with Some (provider_object b) => b | _ => false end.

(** Carries out the record updates of a goal. *)
Ltac update_records :=
  unfold on_frame, set_frame, on_wallet, set_frame_wallet, set_rt, set_promise,
    set_reactions, set_timeout, set_interval, set_count, resolve, reject,
    clear_if_set;
  simpl.

End Race.

(** ** Concrete inputs *)

Module Inputs.

Import SolletWalletAdapter.

(** The popup flow: the provider is the URL of the web wallet. *)
Definition popup_config : SolletWalletAdapterConfig :=
  Config_ (Some (provider_url "https://www.sollet.io")) None.

(** The extension flow: the provider is an injected object. *)
Definition extension_config : SolletWalletAdapterConfig :=
  Config_ (Some (provider_object true)) None.

(** No provider configured: the adapter falls back on [window.sollet]. *)
Definition default_config : SolletWalletAdapterConfig := Config_ None None.

(** A page that has finished loading, with or without [window.sollet]. *)
Definition loaded (sollet : option bool) : Page := Page_ true true true true sollet.

(** An environment in which the import and the constructor succeed. *)
Definition env (sollet : option bool) : Env := Env_ (loaded sollet) (Normal tt) None.

(** An adapter with a live session: the world a popup handshake leaves when
    the transport connects. *)
Definition connected_world : World :=
  Eval vm_compute in
    fst (connect (env None) (initial popup_config [transport_connects "key"])).

Definition sollet : WalletProvider.Wallet.t :=
  WalletProvider.Wallet.Make "Sollet" "https://www.sollet.io".

(** A wallet selected and ready, nothing in progress. *)
Definition selected : WalletProvider.State :=
  WalletProvider.State_ (Some "Sollet") (Some sollet) (Some 1)
    true false false false false None.

(** The same while a call of [connect] is suspended at the adapter. *)
Definition pending : WalletProvider.State :=
  WalletProvider.run selected
    (WalletProvider.trace (WalletProvider.connect selected Awaiting)).

(** A wallet selected whose transport is not installed. *)
Definition not_ready : WalletProvider.State :=
  WalletProvider.State_ (Some "Sollet") (Some sollet) (Some 1)
    false false false false false None.

End Inputs.

(** * Properties *)

(** ** The monad *)

Section MonadFacts.

Context {W A : Type}.

Lemma try_finally_modify (m : M W A) (g : W → W) (w : W) :
  try_finally m (modify g) w =
    match m w with
    | (w', Awaiting) => (w', Awaiting)
    | (w', r) => (g w', r)
    end.
Proof. unfold try_finally, modify. destruct (m w) as [w' [v|e|]]; reflexivity. Qed.

Lemma try_catch_throw (m : M W A) (h : error → M W A) (w w' : W) (e : error) :
  try_catch m h w = (w', Throw e) →
  ∃ w0 e0, m w = (w0, Throw e0) ∧ h e0 w0 = (w', Throw e).
Proof.
  unfold try_catch. destruct (m w) as [w0 [v|e0|]]; intros H; try discriminate.
  exists w0, e0. auto.
Qed.

End MonadFacts.

(** ** The handshake adapter *)

Module AdapterFacts.

Import SolletWalletAdapter Race.

(** *** Field access through the world updates *)

Lemma this_emitting e w : this (emitting e w) = this w.
Proof. reflexivity. Qed.

Lemma emitted_on_this g w : emitted (on_this g w) = emitted w.
Proof. reflexivity. Qed.

(** *** [connect]: the guard, the error report and the cleanup *)

(** A call made while the adapter is connected or connecting returns at
    once; the [finally] of line 417 still runs. *)
Lemma connect_while_busy env w :
  connected (this w) || connecting (this w) = true →
  connect env w = (on_this (set_connecting false) w, Normal tt).
Proof.
  intros busy. unfold connect. rewrite try_finally_modify.
  unfold try_catch, bind, gets. rewrite busy. reflexivity.
Qed.

(** C9: whenever [connect] throws, the last thing the adapter emitted is
    the 'error' event carrying the thrown value, and whenever [connect]
    returns or throws, [_connecting] is false afterwards. *)
Theorem connect_reports_and_clears env w :
  (∀ e, snd (connect env w) = Throw e →
        ∃ before, emitted (fst (connect env w)) = before ++ [emit_error e]) ∧
  (snd (connect env w) ≠ Awaiting → _connecting (this (fst (connect env w))) = false).
Proof.
  unfold connect. rewrite try_finally_modify.
  match goal with |- context [try_catch ?m ?h w] =>
    destruct (try_catch m h w) as [w1 c] eqn:caught end.
  split.
  - intros e thrown.
    assert (c = Throw e) as -> by (destruct c; simpl in thrown; congruence).
    apply try_catch_throw in caught as (w0 & e0 & _ & handled).
    unfold bind, emit, modify, throw in handled. injection handled as <- <-.
    exists (emitted w0). reflexivity.
  - intros settled. destruct c; simpl in *; congruence.
Qed.

(** What C9 covers is not void: a handshake that times out throws. *)
Lemma connect_reports_and_clears_witness :
  snd (connect (Inputs.env None) (initial Inputs.extension_config [timer_fires]))
    = Throw WalletTimeoutError ∧
  (∃ before,
     emitted (fst (connect (Inputs.env None)
                     (initial Inputs.extension_config [timer_fires])))
       = before ++ [emit_error WalletTimeoutError]) ∧
  _connecting (this (fst (connect (Inputs.env None)
                            (initial Inputs.extension_config [timer_fires])))) = false.
Proof.
  pose proof (connect_reports_and_clears (Inputs.env None)
                (initial Inputs.extension_config [timer_fires])) as [reports clears].
  split; [reflexivity|]. split.
  - apply reports. reflexivity.
  - apply clears. discriminate.
Defined.

(** C8: with a first [connect] suspended in its handshake, a second call
    returns at once and builds no transport, but leaves [_connecting]
    false, so that a third call passes the guard of line 335 and builds a
    second transport while the first handshake is still pending. *)
Theorem second_connect_reopens_the_guard :
  let first := connect (Inputs.env None) (initial Inputs.popup_config []) in
  let second := connect (Inputs.env None) (fst first) in
  let third := connect (Inputs.env None) (fst second) in
  snd first = Awaiting ∧
  connecting (this (fst first)) = true ∧
  length (constructed (fst first)) = 1 ∧
  snd second = Normal tt ∧
  constructed (fst second) = constructed (fst first) ∧
  frame (fst second) = frame (fst first) ∧
  connecting (this (fst second)) = false ∧
  snd third = Awaiting ∧
  length (constructed (fst third)) = 2.
Proof. vm_compute. repeat split. Qed.

(** C1: a handshake lost to the timeout, or to the popup probe, leaves the
    'connect' listener on the transport, and a handshake lost to a
    rejection of the transport's own promise, or to the intercepted
    [handleDisconnect], leaves the 10 s timer armed.  In all four the
    member [handleDisconnect] is the library's again. *)
Theorem lost_handshake_leaves_listener_or_timer :
  let run cfg evs := connect (Inputs.env None) (initial cfg evs) in
  let left cfg evs := frame (fst (run cfg evs)) in
  (snd (run Inputs.extension_config [timer_fires]) = Throw WalletTimeoutError ∧
   SolWallet.on_connect (wallet (left Inputs.extension_config [timer_fires]))
     = [SolWallet.connect_closure]) ∧
  (snd (run Inputs.popup_config [popup_becomes (Some true); timer_fires])
     = Throw WalletWindowClosedError ∧
   SolWallet.on_connect
     (wallet (left Inputs.popup_config [popup_becomes (Some true); timer_fires]))
     = [SolWallet.connect_closure] ∧
   Timers.pending
     (rt (left Inputs.popup_config [popup_becomes (Some true); timer_fires])) = []) ∧
  (snd (run Inputs.extension_config [connect_rejects (Thrown (Some "refused"))])
     = Throw (WalletConnectionError (Some "refused") (Thrown (Some "refused"))) ∧
   Timers.pending
     (rt (left Inputs.extension_config [connect_rejects (Thrown (Some "refused"))]))
     = [Timers.Timer 1 10000 None Timers.connect_timeout]) ∧
  (snd (run Inputs.extension_config [transport_handleDisconnect])
     = Throw WalletWindowClosedError ∧
   Timers.pending (rt (left Inputs.extension_config [transport_handleDisconnect]))
     = [Timers.Timer 1 10000 None Timers.connect_timeout]) ∧
  (SolWallet.handleDisconnect (wallet (left Inputs.extension_config [timer_fires]))
     = SolWallet.library_handler ∧
   SolWallet.handleDisconnect
     (wallet (left Inputs.extension_config [connect_rejects (Thrown (Some "refused"))]))
     = SolWallet.library_handler ∧
   SolWallet.handleDisconnect
     (wallet (left Inputs.extension_config [transport_handleDisconnect]))
     = SolWallet.library_handler).
Proof. vm_compute. repeat split. Qed.

(** *** Signing *)

(** C10: with a live session, a signing call of the transport that
    resolves with [null] or [undefined] makes the adapter return the
    caller's transaction, or list of transactions, emitting nothing; a
    result that is not falsy is returned as it is. *)
Theorem signing_falls_back_on_the_input {Transaction : Type}
    (wallet_signTransaction : Transaction → completion (option Transaction))
    (wallet_signAllTransactions :
       list Transaction → completion (option (list Transaction)))
    (w : World) (session : SolWallet.t)
    (transaction : Transaction) (transactions : list Transaction) :
  _wallet (this w) = Some session →
  (wallet_signTransaction transaction = Normal None →
   signTransaction wallet_signTransaction transaction w = (w, Normal transaction)) ∧
  (wallet_signAllTransactions transactions = Normal None →
   signAllTransactions wallet_signAllTransactions transactions w
     = (w, Normal transactions)) ∧
  (∀ signed, wallet_signTransaction transaction = Normal (Some signed) →
   signTransaction wallet_signTransaction transaction w = (w, Normal signed)) ∧
  (∀ signed, wallet_signAllTransactions transactions = Normal (Some signed) →
   signAllTransactions wallet_signAllTransactions transactions w
     = (w, Normal signed)).
Proof.
  intros live.
  unfold signTransaction, signAllTransactions, try_catch, bind, gets, await, ret.
  rewrite live.
  repeat split; intros; repeat match goal with H : _ = Normal _ |- _ => rewrite H end;
    reflexivity.
Qed.

Lemma signing_falls_back_on_the_input_witness :
  signTransaction (λ _ : string, Normal None) "transfer" Inputs.connected_world
    = (Inputs.connected_world, Normal "transfer") ∧
  signAllTransactions (λ _ : list string, Normal None) ["a"; "b"]
      Inputs.connected_world
    = (Inputs.connected_world, Normal ["a"; "b"]).
Proof.
  destruct (_wallet (this Inputs.connected_world)) as [session|] eqn:live;
    [|vm_compute in live; discriminate live].
  destruct (signing_falls_back_on_the_input
              (λ _ : string, Normal None) (λ _ : list string, Normal None)
              Inputs.connected_world session "transfer" ["a"; "b"] live)
    as (one & all & _).
  split; [apply one | apply all]; reflexivity.
Defined.

(** *** The event loop leaves an adapter without session alone *)

Lemma run_listener_outside w l :
  _wallet (this w) = None → outside (run_listener w l) = outside w.
Proof.
  intros idle. destruct l; simpl; [reflexivity|].
  unfold _disconnected. rewrite idle. reflexivity.
Qed.

Lemma outside_wallet w w' :
  outside w' = outside w → _wallet (this w') = _wallet (this w).
Proof. unfold outside. intros [= -> _ _ _]. reflexivity. Qed.

Lemma run_listeners_outside ls w :
  _wallet (this w) = None → outside (foldl run_listener w ls) = outside w.
Proof.
  revert w. induction ls as [|l ls IH]; intros w idle; simpl; [reflexivity|].
  pose proof (run_listener_outside w l idle) as one.
  rewrite IH; [exact one|].
  rewrite (outside_wallet _ _ one). exact idle.
Qed.

Lemma deliver_outside ev w :
  _wallet (this w) = None → outside (deliver ev w) = outside w.
Proof.
  intros idle. destruct ev; unfold deliver;
    try (rewrite run_listeners_outside; [reflexivity|exact idle]);
    repeat case_match; reflexivity.
Qed.

Lemma settle_outside evs w :
  _wallet (this w) = None → outside (settle evs w) = outside w.
Proof.
  revert w. induction evs as [|ev evs IH]; intros w idle; simpl.
  - destruct (promise (frame w)); reflexivity.
  - destruct (promise (frame w)); try reflexivity.
    rewrite IH.
    + apply deliver_outside, idle.
    + rewrite (outside_wallet _ _ (deliver_outside ev w idle)). exact idle.
Qed.


(** *** A promise settles once *)

Lemma resolve_settled f : settled (resolve f).
Proof. unfold settled, resolve. destruct (promise f) eqn:E; simpl; congruence. Qed.

Lemma reject_settled e f : settled (reject e f).
Proof. unfold settled, reject. destruct (promise f) eqn:E; simpl; congruence. Qed.

Lemma resolve_keeps f : settled f → resolve f = f.
Proof. unfold settled, resolve. destruct (promise f); congruence. Qed.

Lemma reject_keeps e f : settled f → reject e f = f.
Proof. unfold settled, reject. destruct (promise f); congruence. Qed.

Lemma promise_on_wallet g f : promise (on_wallet g f) = promise f.
Proof. reflexivity. Qed.

Lemma promise_clear_if_set h f : promise (clear_if_set h f) = promise f.
Proof. destruct h; reflexivity. Qed.


Lemma connect_listener_settled f : settled (connect_listener f).
Proof. unfold connect_listener. apply resolve_settled. Qed.

Lemma connect_hook_settled f : settled (connect_hook f).
Proof.
  unfold connect_hook, settled. rewrite promise_on_wallet. apply reject_settled.
Qed.

Lemma connect_rejected_settled e f : settled (connect_rejected e f).
Proof. unfold connect_rejected. apply reject_settled. Qed.

Lemma disconnect_hook_settled f : settled (disconnect_hook f).
Proof.
  unfold disconnect_hook, settled. rewrite !promise_on_wallet. apply resolve_settled.
Qed.

Lemma disconnect_resolved_settled f : settled (disconnect_resolved f).
Proof. unfold disconnect_resolved. apply resolve_settled. Qed.

Lemma disconnect_rejected_settled e f : settled (disconnect_rejected e f).
Proof.
  unfold disconnect_rejected. case_decide; [apply resolve_settled|apply reject_settled].
Qed.

Lemma poll_stays_settled f : settled f → settled (poll f).
Proof.
  intros done. unfold poll.
  repeat case_match; rewrite ?reject_keeps by exact done; exact done.
Qed.

Lemma run_callback_stays_settled c f : settled f → settled (run_callback c f).
Proof.
  intros done. destruct c; simpl.
  - apply poll_stays_settled, done.
  - apply reject_settled.
  - apply resolve_settled.
Qed.

(** *** Timers that earlier calls left armed *)

(** Their firing leaves the timers of the call in progress alone. *)
Lemma lapse_pending rt0 : Timers.pending (Timers.lapse rt0) = Timers.pending rt0.
Proof.
  unfold Timers.lapse. destruct (Timers.split_earliest _) as [[tm rest]|]; reflexivity.
Qed.

Lemma lapse_none rt0 : Timers.earlier rt0 = [] → Timers.lapse rt0 = rt0.
Proof. intros none. unfold Timers.lapse. rewrite none. reflexivity. Qed.

Lemma found_armed_none rt0 : unarmed rt0 → found_armed rt0 = [].
Proof.
  intros [none_pending none_earlier]. unfold found_armed.
  rewrite none_pending, none_earlier. reflexivity.
Qed.

(** *** The grace timer of [disconnect] *)

Lemma grace_armed_settled f : settled f → grace_armed f.
Proof. intros done waiting. contradiction. Qed.

Lemma grace_armed_on_wallet g f : grace_armed f → grace_armed (on_wallet g f).
Proof. intros armed. exact armed. Qed.

Lemma run_listener_armed w l :
  grace_armed (frame w) → grace_armed (frame (run_listener w l)).
Proof.
  intros armed. destruct l; simpl.
  - apply grace_armed_settled, connect_listener_settled.
  - unfold _disconnected. destruct (_wallet (this w)); exact armed.
Qed.

Lemma run_listeners_armed ls w :
  grace_armed (frame w) → grace_armed (frame (foldl run_listener w ls)).
Proof.
  revert w. induction ls as [|l ls IH]; intros w armed; simpl; [exact armed|].
  apply IH, run_listener_armed, armed.
Qed.

Lemma fire_grace rt0 id due :
  Timers.pending rt0 = [Timers.Timer id due None Timers.grace] →
  ∃ rt', Timers.fire rt0 = Some (Timers.grace, rt').
Proof. intros one. unfold Timers.fire. rewrite one. simpl. eauto. Qed.

Lemma deliver_armed ev w :
  grace_armed (frame w) → grace_armed (frame (deliver ev w)).
Proof.
  intros armed. destruct ev; unfold deliver.
  - apply run_listeners_armed. exact armed.
  - apply run_listeners_armed. exact armed.
  - case_match; [|exact armed]. apply grace_armed_settled, connect_rejected_settled.
  - case_match; [|exact armed]. apply grace_armed_settled, disconnect_resolved_settled.
  - case_match; [|exact armed]. apply grace_armed_settled, disconnect_rejected_settled.
  - case_match.
    + exact armed.
    + apply grace_armed_settled, connect_hook_settled.
    + apply grace_armed_settled, disconnect_hook_settled.
  - exact armed.
  - destruct (promise (frame w)) eqn:state.
    + case_match; [|exact armed]. case_match. simpl.
      apply grace_armed_settled, run_callback_stays_settled.
      unfold settled. simpl. congruence.
    + case_match; [|exact armed]. case_match. simpl.
      apply grace_armed_settled, run_callback_stays_settled.
      unfold settled. simpl. congruence.
    + destruct (armed state) as (id & due & one).
      destruct (fire_grace _ _ _ one) as [rt' fired]. rewrite fired. simpl.
      apply grace_armed_settled, resolve_settled.
  - intros waiting. simpl. rewrite lapse_pending. exact (armed waiting).
Qed.

Lemma settle_done evs w : settled (frame w) → frame (settle evs w) = frame w.
Proof.
  unfold settled. intros done.
  destruct evs; simpl; destruct (promise (frame w)); try reflexivity; congruence.
Qed.

Lemma settle_settled evs w : settled (frame w) → settle evs w = set_future evs w.
Proof.
  unfold settled. intros done.
  destruct evs; simpl; destruct (promise (frame w)); try reflexivity; congruence.
Qed.

Lemma settle_waiting ev evs w :
  promise (frame w) = Awaiting → settle (ev :: evs) w = settle evs (deliver ev w).
Proof. intros waiting. simpl. rewrite waiting. reflexivity. Qed.

Lemma settle_settles_on_grace evs w :
  grace_armed (frame w) → timer_fires ∈ evs → settled (frame (settle evs w)).
Proof.
  revert w. induction evs as [|ev evs IH]; intros w armed fires.
  - inversion fires.
  - destruct (promise (frame w)) eqn:state.
    1,2: rewrite settle_done; unfold settled; congruence.
    rewrite settle_waiting by exact state.
    apply elem_of_cons in fires as [<-|later].
    + assert (settled (frame (deliver timer_fires w))) as done.
      { unfold deliver. destruct (armed state) as (id & due & one).
        destruct (fire_grace _ _ _ one) as [rt' fired]. rewrite fired. simpl.
        apply resolve_settled. }
      rewrite settle_done; exact done.
    + apply IH; [apply deliver_armed, armed|exact later].
Qed.


(** *** The event loop does not read the recorded future *)

Lemma run_listener_set_future x w l :
  run_listener (set_future x w) l = set_future x (run_listener w l).
Proof.
  destruct l; simpl; [reflexivity|].
  unfold _disconnected. simpl. destruct (_wallet (this w)); reflexivity.
Qed.

Lemma run_listeners_set_future x ls : ∀ w,
  foldl run_listener (set_future x w) ls = set_future x (foldl run_listener w ls).
Proof.
  induction ls as [|l ls IH]; intros w; simpl; [reflexivity|].
  rewrite run_listener_set_future. apply IH.
Qed.

Lemma deliver_set_future x ev w :
  deliver ev (set_future x w) = set_future x (deliver ev w).
Proof.
  destruct ev; unfold deliver.
  - apply (run_listeners_set_future x _
             (on_frame (on_wallet (SolWallet.with_identity (Some pk) true)) w)).
  - apply run_listeners_set_future.
  - simpl. case_match; reflexivity.
  - simpl. case_match; reflexivity.
  - simpl. case_match; reflexivity.
  - simpl. case_match; reflexivity.
  - reflexivity.
  - simpl. repeat case_match; reflexivity.
  - reflexivity.
Qed.

Lemma settle_set_future x evs : ∀ w, settle evs (set_future x w) = settle evs w.
Proof.
  induction evs as [|ev evs IH]; intros w; simpl.
  - destruct (promise (frame w)); reflexivity.
  - destruct (promise (frame w)); try reflexivity.
    rewrite deliver_set_future. apply IH.
Qed.

(** A race that is unsettled after some events goes on with the next. *)
Lemma settle_app evs1 evs2 : ∀ w,
  promise (frame (settle evs1 w)) = Awaiting →
  settle (evs1 ++ evs2) w = settle evs2 (settle evs1 w).
Proof.
  induction evs1 as [|ev evs1 IH]; intros w waiting.
  - simpl in *. destruct (promise (frame w)) eqn:state.
    1,2: simpl in waiting; congruence.
    symmetry. apply settle_set_future.
  - destruct (promise (frame w)) eqn:state.
    1,2: rewrite settle_settled in waiting by (unfold settled; congruence);
         simpl in waiting; congruence.
    rewrite settle_waiting in waiting by exact state.
    cbn [app]. rewrite !settle_waiting by exact state. apply IH, waiting.
Qed.

(** *** The reactions of a race stay registered *)

Lemma reactions_resolve f : reactions (resolve f) = reactions f.
Proof. unfold resolve. destruct (promise f); reflexivity. Qed.

Lemma reactions_reject e f : reactions (reject e f) = reactions f.
Proof. unfold reject. destruct (promise f); reflexivity. Qed.

Lemma reactions_clear_if_set h f : reactions (clear_if_set h f) = reactions f.
Proof. destruct h; reflexivity. Qed.

Lemma run_listener_reactions w l :
  reactions (frame (run_listener w l)) = reactions (frame w).
Proof.
  destruct l; simpl.
  - unfold connect_listener. rewrite reactions_resolve. simpl.
    apply reactions_clear_if_set.
  - unfold _disconnected. destruct (_wallet (this w)); reflexivity.
Qed.

Lemma run_listeners_reactions ls : ∀ w,
  reactions (frame (foldl run_listener w ls)) = reactions (frame w).
Proof.
  induction ls as [|l ls IH]; intros w; simpl; [reflexivity|].
  rewrite IH. apply run_listener_reactions.
Qed.

Lemma deliver_reactions ev w :
  reactions (frame (deliver ev w)) = reactions (frame w).
Proof.
  destruct ev; unfold deliver.
  - rewrite run_listeners_reactions. reflexivity.
  - apply run_listeners_reactions.
  - case_match; [|reflexivity]. simpl. unfold connect_rejected.
    rewrite reactions_reject. reflexivity.
  - case_match; [|reflexivity]. simpl. unfold disconnect_resolved.
    rewrite reactions_resolve. apply reactions_clear_if_set.
  - case_match; [|reflexivity]. simpl. unfold disconnect_rejected.
    case_decide; rewrite ?reactions_resolve, ?reactions_reject;
      apply reactions_clear_if_set.
  - case_match; simpl; [reflexivity| |].
    + unfold connect_hook. simpl. rewrite reactions_reject. reflexivity.
    + unfold disconnect_hook. simpl. rewrite reactions_resolve.
      apply reactions_clear_if_set.
  - reflexivity.
  - case_match; [|reflexivity]. case_match. simpl.
    destruct c; simpl.
    + unfold poll. simpl. repeat case_match; rewrite ?reactions_reject; reflexivity.
    + unfold timed_out. rewrite reactions_reject. reflexivity.
    + unfold grace_over. rewrite reactions_resolve. reflexivity.
  - reflexivity.
Qed.

Lemma settle_reactions evs : ∀ w,
  reactions (frame (settle evs w)) = reactions (frame w).
Proof.
  induction evs as [|ev evs IH]; intros w; simpl.
  - destruct (promise (frame w)); reflexivity.
  - destruct (promise (frame w)); try reflexivity.
    rewrite IH. apply deliver_reactions.
Qed.

(** A rejection of the transport's promise settles an unsettled teardown:
    as a success when it carries the benign message, as a failure otherwise. *)
Lemma teardown_refused reason w :
  promise (frame w) = Awaiting →
  has_reaction disconnect_then (frame w) = true →
  promise (frame (deliver (disconnect_rejects reason) w))
    = if decide (message reason = Some "Wallet disconnected")
      then Normal tt else Throw reason.
Proof.
  intros waiting registered. unfold deliver. rewrite registered.
  unfold on_frame, disconnect_rejected. simpl.
  case_decide; unfold resolve, reject; rewrite promise_clear_if_set, waiting;
    reflexivity.
Qed.

(** *** [disconnect] *)

(** [disconnect] with a live session, in terms of the race it awaits. *)
Lemma disconnect_live w session :
  _wallet (this w) = Some session →
  disconnect w =
    let w1 :=
      settle (future w)
        (set_frame
           (teardown_executor
              (SolWallet.off_disconnect SolWallet._disconnected session)
              (rt (frame w)))
           (on_this (set_wallet None) w)) in
    match promise (frame w1) with
    | Awaiting => (w1, Awaiting)
    | Normal _ =>
        (emitting emit_disconnect (on_frame teardown_cleanup w1), Normal tt)
    | Throw e =>
        (emitting emit_disconnect
           (on_frame teardown_cleanup
              (emitting (emit_error (WalletDisconnectionError (message e) e)) w1)),
         Normal tt)
    end.
Proof.
  intros live.
  unfold disconnect, bind, gets. rewrite live.
  unfold modify, try_finally, try_catch, await_race, emit, bind, modify.
  simpl.
  match goal with |- context [settle ?evs ?w0] => generalize (settle evs w0) end.
  intros w1. destruct (promise (frame w1)) as [[]| |]; reflexivity.
Qed.

Lemma teardown_executor_armed wallet rt0 :
  grace_armed (teardown_executor wallet rt0).
Proof. intros _. exists 1, (Timers.now rt0 + 250)%Z. reflexivity. Qed.

(** C3: [disconnect] without a live session only emits 'disconnect'.  With
    one, the session is gone from [_wallet] while the teardown is awaited;
    the call never throws, and it returns once the grace timer has fired;
    when it returns, it has emitted 'disconnect' once, as the last event,
    preceded by one 'error' carrying a [WalletDisconnectionError] exactly
    when the race was settled by a rejection.  A rejection of the
    transport's promise that arrives while the race is unsettled ends the
    call: with that 'error' first, unless its message is the benign one. *)
Theorem disconnect_always_completes w :
  (_wallet (this w) = None →
   disconnect w = (emitting emit_disconnect w, Normal tt)) ∧
  (∀ session, _wallet (this w) = Some session →
     (∃ suspended,
        disconnect (set_future [] w) = (suspended, Awaiting) ∧
        _wallet (this suspended) = None ∧
        emitted suspended = emitted w ∧
        SolWallet.calls (wallet (frame suspended))
          = SolWallet.calls session ++ [SolWallet.disconnect_called]) ∧
     (timer_fires ∈ future w → snd (disconnect w) = Normal tt) ∧
     (snd (disconnect w) = Normal tt →
      _wallet (this (fst (disconnect w))) = None ∧
      emitted (fst (disconnect w)) =
        emitted w ++
        match promise (frame (fst (disconnect w))) with
        | Throw e => [emit_error (WalletDisconnectionError (message e) e)]
        | _ => []
        end ++ [emit_disconnect]) ∧
     (∀ before reason rest,
        future w = before ++ disconnect_rejects reason :: rest →
        snd (disconnect (set_future before w)) = Awaiting →
        snd (disconnect w) = Normal tt ∧
        emitted (fst (disconnect w)) =
          emitted w ++
          (if decide (message reason = Some "Wallet disconnected") then []
           else [emit_error (WalletDisconnectionError (message reason) reason)])
          ++ [emit_disconnect])) ∧
  (∀ e, snd (disconnect w) ≠ Throw e).
Proof.
  split; [|split].
  - intros idle. unfold disconnect, bind, gets. rewrite idle. reflexivity.
  - intros session live.
    rewrite (disconnect_live (set_future [] w) session live).
    rewrite (disconnect_live w session live). cbn zeta.
    split; [|split; [|split]].
    + eexists. cbn. repeat split.
    + intros fires.
      match goal with |- context [settle ?evs ?w0] =>
        pose proof (settle_settles_on_grace evs w0
                      (teardown_executor_armed _ _) fires) as done;
        unfold settled in done;
        destruct (promise (frame (settle evs w0))) as [[]| |]
      end; [reflexivity..|congruence].
    + match goal with |- context [settle ?evs ?w0] =>
        assert (outside (settle evs w0) = outside w0) as same
          by (apply settle_outside; reflexivity);
        generalize dependent (settle evs w0)
      end.
      intros w1 same. injection same as known_this known_emitted _ _.
      destruct (promise (frame w1)) as [[]| |] eqn:state;
        intros returned; try discriminate returned; simpl;
        rewrite ?state, known_this, known_emitted; simpl;
        rewrite <- ?app_assoc; split; reflexivity.
    + intros before reason rest next waiting. rewrite next.
      rewrite (disconnect_live (set_future before w) session live) in waiting.
      cbn zeta in waiting.
      match goal with |- context [settle _ ?w0] =>
        assert (promise (frame (settle before w0)) = Awaiting) as unsettled
      end.
      { match type of waiting with
        | snd (match promise (frame (settle _ ?w1)) with _ => _ end) = _ =>
            change w1 with
              (set_future before
                 (set_frame
                    (teardown_executor
                       (SolWallet.off_disconnect SolWallet._disconnected session)
                       (rt (frame w)))
                    (on_this (set_wallet None) w))) in waiting
        end.
        simpl (future _) in waiting.
        rewrite settle_set_future in waiting.
        destruct (promise (frame (settle before _))) as [[]| |];
          [discriminate waiting..|reflexivity]. }
      rewrite settle_app by exact unsettled.
      rewrite settle_waiting by exact unsettled.
      match goal with |- context [settle rest (deliver ?ev ?w1)] =>
        assert (promise (frame (deliver ev w1))
                  = if decide (message reason = Some "Wallet disconnected")
                    then Normal tt else Throw reason) as answered
          by (apply teardown_refused; [exact unsettled|];
              unfold has_reaction; rewrite settle_reactions; reflexivity);
        assert (outside w1 = outside (on_this (set_wallet None) w)) as start
          by (rewrite settle_outside; reflexivity);
        assert (_wallet (this w1) = None) as idle
          by (rewrite (outside_wallet _ _ start); reflexivity);
        assert (outside (settle rest (deliver ev w1)) = outside w1) as same
          by (rewrite settle_outside;
              [apply deliver_outside, idle
              |rewrite (outside_wallet _ _ (deliver_outside ev w1 idle)); exact idle]);
        assert (frame (settle rest (deliver ev w1)) = frame (deliver ev w1)) as kept
          by (apply settle_done; unfold settled; rewrite answered;
              case_decide; discriminate);
        generalize dependent (settle rest (deliver ev w1))
      end.
      intros w2 same kept. rewrite kept, answered. rewrite start in same.
      clear idle.
      injection same as known_this known_emitted _ _.
      case_decide; simpl; rewrite known_emitted; simpl; rewrite <- ?app_assoc;
        split; reflexivity.
  - intros e. destruct (_wallet (this w)) as [session|] eqn:live.
    + rewrite (disconnect_live _ session) by exact live. cbn zeta.
      match goal with |- context [settle ?evs ?w0] =>
        destruct (promise (frame (settle evs w0))) as [[]| |] end;
        simpl; discriminate.
    + unfold disconnect, bind, gets. rewrite live. simpl. discriminate.
Qed.

(** [Inputs.connected_world] is what a handshake leaves. *)
Lemma connected_world_reached :
  connect (Inputs.env None) (initial Inputs.popup_config [transport_connects "key"])
    = (Inputs.connected_world, Normal tt).
Proof. vm_compute. reflexivity. Qed.

(** A teardown that the transport never answers ends with the grace timer,
    and one that the transport refuses is reported and ends all the same. *)
Lemma disconnect_always_completes_witness :
  snd (disconnect (set_future [timer_fires] Inputs.connected_world))
    = Normal tt ∧
  emitted (fst (disconnect
                  (set_future [disconnect_rejects (Thrown (Some "refused"))]
                     Inputs.connected_world)))
    = [emit_connect;
       emit_error (WalletDisconnectionError (Some "refused") (Thrown (Some "refused")));
       emit_disconnect].
Proof.
  destruct (_wallet (this Inputs.connected_world)) as [session|] eqn:live;
    [|vm_compute in live; discriminate live].
  split.
  - destruct (disconnect_always_completes
                (set_future [timer_fires] Inputs.connected_world))
      as (_ & with_session & _).
    destruct (with_session session live) as (_ & fires & _).
    apply fires. apply list_elem_of_here.
  - destruct (disconnect_always_completes
                (set_future [disconnect_rejects (Thrown (Some "refused"))]
                   Inputs.connected_world))
      as (_ & with_session & _).
    destruct (with_session session live) as (_ & _ & _ & refused).
    destruct (refused [] (Thrown (Some "refused")) [] eq_refl eq_refl) as [_ shown].
    exact shown.
Defined.

(** *** [connect] up to its handshake *)

Lemma ready_popup page w :
  window_defined page = true → document_defined page = true →
  is_string (_provider (this w)) = true →
  ready page w = (w, Normal true).
Proof.
  intros has_window has_document str.
  unfold ready, bind, gets. rewrite has_window, has_document, str. reflexivity.
Qed.

Lemma ready_extension page w :
  window_defined page = true → document_defined page = true →
  extension_flow (this w) page →
  ready page w = (w, Normal true).
Proof.
  intros has_window has_document [given|(none & complete & injected)];
    unfold ready, bind, gets; rewrite has_window, has_document.
  - rewrite given. reflexivity.
  - rewrite none, complete. unfold sollet_injected. rewrite injected. reflexivity.
Qed.

(** [connect], once it is known to reach the handshake, in terms of the
    race it awaits. *)
Lemma connect_into_handshake env w provider :
  connected (this w) || connecting (this w) = false →
  ready (page env) (on_this (set_connecting true) w)
    = (on_this (set_connecting true) w, Normal true) →
  provider_or_sollet (this w) (page env) = provider →
  imported env = Normal tt →
  construction env = None →
  connect env w =
    conclude
      (settle (future w)
         (racing w provider
            (handshake_executor provider SolWallet.fresh (rt (frame w))))).
Proof.
  intros free is_ready <- loaded built. unfold conclude, racing.
  remember (settle (future w) _) as w1 eqn:race.
  unfold connect. rewrite try_finally_modify.
  unfold try_catch at 1. unfold bind at 1. unfold gets at 1.
  rewrite free.
  unfold bind at 1. unfold modify at 1.
  unfold bind at 1. rewrite is_ready. cbn [negb].
  unfold bind at 1. unfold try_catch at 1. rewrite loaded. unfold await at 1.
  unfold bind at 1. unfold try_catch at 1. unfold new_SolWalletAdapter. rewrite built.
  unfold bind at 1. unfold modify at 1. unfold ret at 1.
  unfold bind at 1. unfold try_catch at 1. unfold handshake.
  unfold bind at 1. rewrite try_finally_modify.
  unfold bind at 1. unfold modify at 1. unfold await_race.
  match goal with |- context [settle ?evs ?w0] =>
    replace (settle evs w0) with w1 by (rewrite race; reflexivity) end.
  clear race. destruct (promise (frame w1)) as [[]|e|]; try reflexivity.
  destruct (instanceof_WalletError e); reflexivity.
Qed.

(** *** The probes of the handshake *)

Lemma executor_popup url rt0 :
  handshake_executor (Some (provider_url url)) SolWallet.fresh rt0
    = polling (Timers.now rt0) (found_armed rt0) 0 (hooked SolWallet.fresh)
        SolWallet.library_handler.
Proof.
  unfold polling, handshake_executor, hooked, found_armed. update_records.
  replace (Timers.now rt0 + 100 * Z.of_nat 0)%Z with (Timers.now rt0) by lia.
  replace (Timers.now rt0 + 100 * Z.of_nat 1)%Z with (Timers.now rt0 + 100)%Z by lia.
  reflexivity.
Qed.

Lemma executor_extension provider rt0 :
  is_string provider = false →
  handshake_executor provider SolWallet.fresh rt0
    = timing (Timers.now rt0) (found_armed rt0) (hooked SolWallet.fresh)
        SolWallet.library_handler.
Proof. intros other. unfold handshake_executor. rewrite other. reflexivity. Qed.

(** A run of the probe that finds an open popup, or none yet within the
    budget, leaves the race as it is, one period later. *)
Lemma poll_goes_on a em co br fu clock stale k wallet saved :
  SolWallet._popup wallet = Some false ∨
  (SolWallet._popup wallet = None ∧ k ≤ 50) →
  deliver timer_fires (World_ a em co br fu (polling clock stale k wallet saved))
    = World_ a em co br fu (polling clock stale (S k) wallet saved).
Proof.
  intros quiet. unfold deliver, polling. simpl.
  rewrite Z.max_r by lia. unfold poll. update_records.
  destruct quiet as [open|[absent within]].
  - rewrite open. simpl.
    replace (clock + 100 * Z.of_nat (S k) + 100)%Z
      with (clock + 100 * Z.of_nat (S (S k)))%Z by lia.
    replace (Z.of_nat k + 1)%Z with (Z.of_nat (S k)) by lia.
    reflexivity.
  - rewrite absent. replace (50 <? Z.of_nat k)%Z with false by lia. simpl.
    replace (clock + 100 * Z.of_nat (S k) + 100)%Z
      with (clock + 100 * Z.of_nat (S (S k)))%Z by lia.
    replace (Z.of_nat k + 1)%Z with (Z.of_nat (S k)) by lia.
    reflexivity.
Qed.

Lemma polls_go_on n : ∀ a em co br fu clock stale k wallet saved rest,
  SolWallet._popup wallet = Some false ∨
  (SolWallet._popup wallet = None ∧ k + n ≤ 51) →
  settle (replicate n timer_fires ++ rest)
      (World_ a em co br fu (polling clock stale k wallet saved))
    = settle rest (World_ a em co br fu (polling clock stale (k + n) wallet saved)).
Proof.
  induction n as [|n IH]; intros a em co br fu clock stale k wallet saved rest quiet.
  - rewrite Nat.add_0_r. reflexivity.
  - cbn [replicate app]. rewrite settle_waiting by reflexivity.
    rewrite poll_goes_on by (destruct quiet as [?|[? ?]]; [left|right; split]; auto; lia).
    rewrite IH by (destruct quiet as [?|[? ?]]; [left|right; split]; auto; lia).
    replace (S k + n) with (k + S n) by lia. reflexivity.
Qed.

(** The run of the probe after fifty-one fruitless ones rejects. *)
Lemma poll_gives_up a em co br fu clock stale wallet saved :
  SolWallet._popup wallet = None →
  deliver timer_fires (World_ a em co br fu (polling clock stale 51 wallet saved))
    = World_ a em co br fu
        (Frame_
           (Timers.Runtime (clock + 5200) 2
              [Timers.Timer 1 (clock + 5300) (Some 100%Z) Timers.poll] stale)
           wallet (Throw WalletWindowBlockedError) [connect_catch] saved
           None (Some 1) 52).
Proof.
  intros absent. unfold deliver, polling. simpl.
  rewrite Z.max_r by lia. unfold poll. update_records. rewrite absent. simpl.
  replace (clock + 100 * Z.of_nat 52)%Z with (clock + 5200)%Z by lia.
  replace (clock + 5200 + 100)%Z with (clock + 5300)%Z by lia.
  reflexivity.
Qed.

(** A run of the probe that finds the popup closed rejects. *)
Lemma poll_finds_closed a em co br fu clock stale k wallet saved :
  SolWallet._popup wallet = Some true →
  deliver timer_fires (World_ a em co br fu (polling clock stale k wallet saved))
    = World_ a em co br fu
        (Frame_
           (Timers.Runtime (clock + 100 * Z.of_nat (S k)) 2
              [Timers.Timer 1 (clock + 100 * Z.of_nat (S (S k))) (Some 100%Z)
                 Timers.poll] stale)
           wallet (Throw WalletWindowClosedError) [connect_catch] saved
           None (Some 1) (Z.of_nat (S k))).
Proof.
  intros shut. unfold deliver, polling. simpl.
  rewrite Z.max_r by lia. unfold poll. update_records. rewrite shut. simpl.
  replace (clock + 100 * Z.of_nat (S k) + 100)%Z
    with (clock + 100 * Z.of_nat (S (S k)))%Z by lia.
  replace (Z.of_nat k + 1)%Z with (Z.of_nat (S k)) by lia.
  reflexivity.
Qed.

(** The timer of the extension flow rejects when it fires. *)
Lemma timer_times_out a em co br fu clock stale wallet saved :
  deliver timer_fires (World_ a em co br fu (timing clock stale wallet saved))
    = World_ a em co br fu
        (Frame_ (Timers.Runtime (clock + 10000) 2 [] stale)
           wallet (Throw WalletTimeoutError) [connect_catch] saved
           (Some 1) None 0).
Proof.
  unfold deliver, timing. simpl. rewrite Z.max_r by lia. reflexivity.
Qed.


Lemma popup_changes p a em co br fu clock stale k wallet saved :
  deliver (popup_becomes p) (World_ a em co br fu (polling clock stale k wallet saved))
    = World_ a em co br fu (polling clock stale k (SolWallet.with_popup p wallet) saved).
Proof. reflexivity. Qed.

(** [connect] in the popup flow. *)
Lemma connect_popup env w url evs :
  connected (this w) || connecting (this w) = false →
  window_defined (page env) = true →
  document_defined (page env) = true →
  imported env = Normal tt →
  construction env = None →
  _provider (this w) = Some (provider_url url) →
  url ≠ EmptyString →
  connect env (set_future evs w) =
    conclude
      (settle evs
         (racing (set_future evs w) (Some (provider_url url))
            (polling (Timers.now (rt (frame w))) (found_armed (rt (frame w))) 0
               (hooked SolWallet.fresh)
               SolWallet.library_handler))).
Proof.
  intros free has_window has_document loaded built given nonempty.
  rewrite (connect_into_handshake env (set_future evs w) (Some (provider_url url)));
    try assumption.
  - rewrite executor_popup. reflexivity.
  - apply ready_popup; try assumption. simpl. rewrite given. reflexivity.
  - unfold provider_or_sollet, truthy. simpl. rewrite given.
    apply String.eqb_neq in nonempty. rewrite nonempty. reflexivity.
Qed.

(** [connect] in the extension flow. *)
Lemma connect_extension env w evs :
  connected (this w) || connecting (this w) = false →
  window_defined (page env) = true →
  document_defined (page env) = true →
  imported env = Normal tt →
  construction env = None →
  extension_flow (this w) (page env) →
  connect env (set_future evs w) =
    conclude
      (settle evs
         (racing (set_future evs w) (Some (provider_object true))
            (timing (Timers.now (rt (frame w))) (found_armed (rt (frame w)))
               (hooked SolWallet.fresh)
               SolWallet.library_handler))).
Proof.
  intros free has_window has_document loaded built flow.
  rewrite (connect_into_handshake env (set_future evs w) (Some (provider_object true)));
    try assumption.
  - rewrite executor_extension by reflexivity. reflexivity.
  - apply ready_extension; assumption.
  - unfold provider_or_sollet, truthy. simpl.
    destruct flow as [given|(none & _ & injected)].
    + rewrite given. reflexivity.
    + rewrite none, injected. reflexivity.
Qed.


(** C4: when no timer is armed at the call, in the popup flow the
    handshake installs the probe, every 100 ms, and no timeout: the probe
    is the one timer armed; with no popup the call is still waiting after
    fifty-one runs of the probe and throws [WalletWindowBlockedError] at
    the fifty-second, 5.2 s after the start; with a popup that is then
    closed it throws [WalletWindowClosedError] at the next run of the
    probe; either way no timer is armed afterwards.  In the extension flow
    it installs one timer of 10 s and no probe: that timer is the one timer
    armed, and the call throws [WalletTimeoutError] when it fires, 10 s
    after the start, with no timer armed afterwards. *)
Theorem handshake_probes env w :
  connected (this w) || connecting (this w) = false →
  window_defined (page env) = true →
  document_defined (page env) = true →
  imported env = Normal tt →
  construction env = None →
  unarmed (rt (frame w)) →
  let clock := Timers.now (rt (frame w)) in
  (popup_flow (this w) →
     (∃ suspended,
        connect env (set_future [] w) = (suspended, Awaiting) ∧
        Timers.pending (rt (frame suspended))
          = [Timers.Timer 1 (clock + 100) (Some 100%Z) Timers.poll] ∧
        Timers.earlier (rt (frame suspended)) = [] ∧
        timeout (frame suspended) = None) ∧
     (∀ n, n ≤ 51 →
        snd (connect env (set_future (replicate n timer_fires) w)) = Awaiting) ∧
     (∀ rest,
        let r := connect env (set_future (replicate 52 timer_fires ++ rest) w) in
        snd r = Throw WalletWindowBlockedError ∧
        Timers.now (rt (frame (fst r))) = (clock + 5200)%Z ∧
        unarmed (rt (frame (fst r)))) ∧
     (∀ n rest,
        let r := connect env
                   (set_future
                      (popup_becomes (Some false) :: replicate n timer_fires ++
                       popup_becomes (Some true) :: timer_fires :: rest) w) in
        snd r = Throw WalletWindowClosedError ∧
        Timers.now (rt (frame (fst r))) = (clock + 100 * Z.of_nat (S n))%Z ∧
        unarmed (rt (frame (fst r))))) ∧
  (extension_flow (this w) (page env) →
     (∃ suspended,
        connect env (set_future [] w) = (suspended, Awaiting) ∧
        Timers.pending (rt (frame suspended))
          = [Timers.Timer 1 (clock + 10000) None Timers.connect_timeout] ∧
        Timers.earlier (rt (frame suspended)) = [] ∧
        interval (frame suspended) = None) ∧
     (∀ rest,
        let r := connect env (set_future (timer_fires :: rest) w) in
        snd r = Throw WalletTimeoutError ∧
        Timers.now (rt (frame (fst r))) = (clock + 10000)%Z ∧
        unarmed (rt (frame (fst r))))).
Proof.
  intros free has_window has_document loaded built calm clock. split.
  - intros (url & given & nonempty).
    split; [|split; [|split]].
    + eexists. rewrite (connect_popup env w url) by assumption.
      rewrite (found_armed_none _ calm).
      split; [reflexivity|]. split; [|split; reflexivity].
      simpl. replace (100 * Z.of_nat 1)%Z with 100%Z by lia. reflexivity.
    + intros n within. rewrite (connect_popup env w url) by assumption.
      rewrite <- (app_nil_r (replicate n timer_fires)).
      unfold racing. rewrite polls_go_on by (right; split; [reflexivity|lia]).
      reflexivity.
    + intros rest. cbn zeta. rewrite (connect_popup env w url) by assumption.
      rewrite (found_armed_none _ calm).
      change (replicate 52 timer_fires ++ rest)
        with (replicate 51 timer_fires ++ timer_fires :: rest).
      unfold racing. rewrite polls_go_on by (right; split; [reflexivity|lia]).
      rewrite settle_waiting by reflexivity.
      rewrite poll_gives_up by reflexivity.
      rewrite settle_settled by (unfold settled; simpl; congruence).
      repeat split.
    + intros n rest. cbn zeta. rewrite (connect_popup env w url) by assumption.
      rewrite (found_armed_none _ calm).
      unfold racing.
      rewrite settle_waiting by reflexivity. rewrite popup_changes.
      rewrite polls_go_on by (left; reflexivity).
      rewrite settle_waiting by reflexivity. rewrite popup_changes.
      rewrite settle_waiting by reflexivity.
      rewrite poll_finds_closed by reflexivity.
      rewrite settle_settled by (unfold settled; simpl; congruence).
      repeat split.
  - intros flow. split.
    + eexists. rewrite (connect_extension env w) by assumption.
      rewrite (found_armed_none _ calm).
      split; [reflexivity|]. repeat split.
    + intros rest. cbn zeta. rewrite (connect_extension env w) by assumption.
      rewrite (found_armed_none _ calm).
      unfold racing.
      rewrite settle_waiting by reflexivity. rewrite timer_times_out.
      rewrite settle_settled by (unfold settled; simpl; congruence).
      repeat split.
Qed.

(** A popup that never opens, and an extension that never answers. *)
Lemma handshake_probes_witness :
  snd (connect (Inputs.env None)
         (set_future (replicate 52 timer_fires) (initial Inputs.popup_config [])))
    = Throw WalletWindowBlockedError ∧
  snd (connect (Inputs.env None)
         (set_future [timer_fires] (initial Inputs.extension_config [])))
    = Throw WalletTimeoutError.
Proof.
  split.
  - destruct (handshake_probes (Inputs.env None) (initial Inputs.popup_config [])
                eq_refl eq_refl eq_refl eq_refl eq_refl (conj eq_refl eq_refl))
      as [popup _].
    destruct popup as (_ & _ & blocked & _).
    { exists "https://www.sollet.io". split; [reflexivity|discriminate]. }
    destruct (blocked []) as [thrown _]. exact thrown.
  - destruct (handshake_probes (Inputs.env None) (initial Inputs.extension_config [])
                eq_refl eq_refl eq_refl eq_refl eq_refl (conj eq_refl eq_refl))
      as [_ extension].
    destruct extension as (_ & timed).
    { left. reflexivity. }
    destruct (timed []) as [thrown _]. exact thrown.
Defined.

(** *** What the [finally] of the handshake undoes *)

Lemma fire_keeps rt0 c rt1 :
  Timers.fire rt0 = Some (c, rt1) →
  ∀ tm, tm ∈ Timers.pending rt1 →
    ∃ tm0, tm0 ∈ Timers.pending rt0 ∧
           Timers.tid tm = Timers.tid tm0 ∧ Timers.cb tm = Timers.cb tm0.
Proof.
  unfold Timers.fire. intros fired tm inside.
  destruct (Timers.earliest (Timers.pending rt0)) as [first|] eqn:found;
    [|discriminate].
  assert (first ∈ Timers.pending rt0) as first_pending.
  { clear fired inside. revert first found.
    induction (Timers.pending rt0) as [|x l IH]; intros first found;
      simpl in found; [discriminate|].
    destruct (Timers.earliest l) as [y|].
    - case_match; injection found as <-.
      + apply list_elem_of_further, IH. reflexivity.
      + apply list_elem_of_here.
    - injection found as <-. apply list_elem_of_here. }
  injection fired as _ <-. simpl in inside.
  apply elem_of_app in inside as [kept|again].
  - apply list_elem_of_In, filter_In in kept as [kept _].
    exists tm. split; [apply list_elem_of_In, kept|]. split; reflexivity.
  - exists first. split; [exact first_pending|].
    destruct (Timers.period first); [|inversion again].
    apply list_elem_of_singleton in again as ->. split; reflexivity.
Qed.

Lemma clear_keeps id rt0 tm :
  tm ∈ Timers.pending (Timers.clear id rt0) →
  tm ∈ Timers.pending rt0 ∧ Timers.tid tm ≠ id.
Proof.
  unfold Timers.clear. simpl. intros kept.
  apply list_elem_of_In, filter_In in kept as [kept other].
  split; [apply list_elem_of_In, kept|].
  apply negb_true_iff, Nat.eqb_neq in other. exact other.
Qed.


Lemma narrows_refl f : narrows f f.
Proof. repeat split. intros tm inside. exists tm. auto. Qed.

Lemma narrows_trans f g h : narrows f g → narrows g h → narrows f h.
Proof.
  intros (saved1 & handle1 & timers1) (saved2 & handle2 & timers2).
  split; [congruence|]. split; [congruence|].
  intros tm inside.
  destruct (timers2 tm inside) as (tm1 & inside1 & same_tid1 & same_cb1).
  destruct (timers1 tm1 inside1) as (tm0 & inside0 & same_tid0 & same_cb0).
  exists tm0. split; [exact inside0|]. split; congruence.
Qed.

Lemma narrows_resolve f : narrows f (resolve f).
Proof.
  unfold resolve. destruct (promise f); repeat split; intros tm inside; exists tm; auto.
Qed.

Lemma narrows_reject e f : narrows f (reject e f).
Proof.
  unfold reject. destruct (promise f); repeat split; intros tm inside; exists tm; auto.
Qed.

Lemma narrows_on_wallet g f : narrows f (on_wallet g f).
Proof. repeat split. intros tm inside. exists tm. auto. Qed.

Lemma narrows_clear_if_set h f : narrows f (clear_if_set h f).
Proof.
  destruct h as [id|]; [|apply narrows_refl].
  repeat split. simpl. intros tm kept. apply clear_keeps in kept as [kept _].
  exists tm. auto.
Qed.

Lemma narrows_fired f c rt1 :
  Timers.fire (rt f) = Some (c, rt1) → narrows f (set_rt rt1 f).
Proof.
  intros fired. repeat split. simpl. apply (fire_keeps _ _ _ fired).
Qed.

Lemma narrows_run_callback c f : narrows f (run_callback c f).
Proof.
  destruct c; simpl.
  - unfold poll.
    assert (∀ f', narrows f f' → narrows f (set_count (count f' + 1) f')) as counted.
    { intros f' (saved & handle & timers). repeat split; assumption. }
    apply counted. repeat case_match; try apply narrows_reject; apply narrows_refl.
  - apply narrows_reject.
  - apply narrows_resolve.
Qed.

Lemma narrows_run_listener w l : narrows (frame w) (frame (run_listener w l)).
Proof.
  destruct l; simpl.
  - unfold connect_listener.
    eapply narrows_trans; [apply narrows_clear_if_set|].
    eapply narrows_trans; [apply narrows_on_wallet|apply narrows_resolve].
  - unfold _disconnected. destruct (_wallet (this w)); apply narrows_refl.
Qed.

Lemma narrows_run_listeners ls : ∀ w,
  narrows (frame w) (frame (foldl run_listener w ls)).
Proof.
  induction ls as [|l ls IH]; intros w; simpl; [apply narrows_refl|].
  eapply narrows_trans; [apply narrows_run_listener|apply IH].
Qed.

Lemma narrows_deliver ev w : narrows (frame w) (frame (deliver ev w)).
Proof.
  destruct ev; unfold deliver.
  - eapply narrows_trans; [|apply narrows_run_listeners].
    apply (narrows_on_wallet _ (frame w)).
  - apply narrows_run_listeners.
  - case_match; [|apply narrows_refl]. simpl. unfold connect_rejected.
    eapply narrows_trans; [apply narrows_on_wallet|apply narrows_reject].
  - case_match; [|apply narrows_refl]. simpl. unfold disconnect_resolved.
    eapply narrows_trans; [apply narrows_clear_if_set|apply narrows_resolve].
  - case_match; [|apply narrows_refl]. simpl. unfold disconnect_rejected.
    eapply narrows_trans; [apply narrows_clear_if_set|].
    case_decide; [apply narrows_resolve|apply narrows_reject].
  - case_match; simpl; [apply narrows_on_wallet| |].
    + unfold connect_hook.
      eapply narrows_trans; [apply narrows_on_wallet|].
      eapply narrows_trans; [apply narrows_reject|apply narrows_on_wallet].
    + unfold disconnect_hook.
      eapply narrows_trans; [apply narrows_clear_if_set|].
      eapply narrows_trans; [apply narrows_resolve|].
      eapply narrows_trans; apply narrows_on_wallet.
  - apply (narrows_on_wallet _ (frame w)).
  - destruct (Timers.fire (rt (frame w))) as [[c rt1]|] eqn:fired;
      [|apply narrows_refl].
    simpl. eapply narrows_trans; [apply (narrows_fired _ _ _ fired)|].
    apply narrows_run_callback.
  - repeat split. simpl. rewrite lapse_pending. intros tm inside. exists tm. auto.
Qed.

Lemma narrows_settle evs : ∀ w, narrows (frame w) (frame (settle evs w)).
Proof.
  induction evs as [|ev evs IH]; intros w; simpl.
  - destruct (promise (frame w)); apply narrows_refl.
  - destruct (promise (frame w)); try apply narrows_refl.
    eapply narrows_trans; [apply narrows_deliver|apply IH].
Qed.

(** The handshake in terms of the race it awaits. *)
Lemma handshake_unfolded provider built w :
  handshake provider built w =
    let w1 :=
      settle (future w)
        (set_frame (handshake_executor provider built (rt (frame w))) w) in
    match promise (frame w1) with
    | Awaiting => (w1, Awaiting)
    | Normal _ =>
        (on_frame handshake_cleanup w1, Normal (wallet (handshake_cleanup (frame w1))))
    | Throw e => (on_frame handshake_cleanup w1, Throw e)
    end.
Proof.
  cbn zeta. remember (settle (future w) _) as w1 eqn:race.
  unfold handshake. unfold bind at 1. rewrite try_finally_modify.
  unfold bind at 1. unfold modify at 1. unfold await_race.
  match goal with |- context [settle ?evs ?w0] =>
    replace (settle evs w0) with w1 by (rewrite race; reflexivity) end.
  destruct (promise (frame w1)) as [[]|e|]; reflexivity.
Qed.

Lemma executor_saves provider built rt0 :
  handleDisconnect (handshake_executor provider built rt0)
    = SolWallet.handleDisconnect built.
Proof. unfold handshake_executor. destruct (is_string provider); reflexivity. Qed.

Lemma executor_owns_probe provider built rt0 tm :
  tm ∈ Timers.pending (rt (handshake_executor provider built rt0)) →
  Timers.cb tm = Timers.poll →
  Some (Timers.tid tm) = interval (handshake_executor provider built rt0).
Proof.
  unfold handshake_executor. destruct (is_string provider); simpl;
    intros inside is_probe; apply list_elem_of_singleton in inside as ->;
    [reflexivity|discriminate is_probe].
Qed.

Lemma cleanup_restores f :
  SolWallet.handleDisconnect (wallet (handshake_cleanup f)) = handleDisconnect f.
Proof.
  unfold handshake_cleanup, clear_if_set. simpl. destruct (interval f); reflexivity.
Qed.

Lemma cleanup_stops_probe f tm :
  tm ∈ Timers.pending (rt (handshake_cleanup f)) →
  tm ∈ Timers.pending (rt f) ∧ Some (Timers.tid tm) ≠ interval f.
Proof.
  unfold handshake_cleanup, clear_if_set. simpl.
  destruct (interval f) as [id|]; simpl.
  - intros kept. apply (clear_keeps id (rt f)) in kept as [kept other].
    split; [exact kept|congruence].
  - intros kept. split; [exact kept|discriminate].
Qed.

Lemma cleanup_keeps_promise f : promise (handshake_cleanup f) = promise f.
Proof. unfold handshake_cleanup. rewrite promise_clear_if_set. reflexivity. Qed.

(** X8: whichever branch wins, and whether the handshake returns or
    throws: once the race has settled it stays settled, the member
    [handleDisconnect] is the one saved before it and no run of the probe
    is pending. *)
Lemma settled_handshake_is_cleaned provider built w :
  snd (handshake provider built w) ≠ Awaiting →
  let left := frame (fst (handshake provider built w)) in
  settled left ∧
  SolWallet.handleDisconnect (wallet left) = SolWallet.handleDisconnect built ∧
  ∀ tm, tm ∈ Timers.pending (rt left) → Timers.cb tm ≠ Timers.poll.
Proof.
  rewrite handshake_unfolded. cbn zeta.
  match goal with |- context [settle ?evs ?w0] =>
    pose proof (narrows_settle evs w0) as (saved & handle & timers);
    generalize dependent (settle evs w0) end.
  intros w1 saved handle timers.
  simpl in saved, handle, timers. rewrite executor_saves in saved.
  assert (settled (frame w1) →
          settled (handshake_cleanup (frame w1)) ∧
          SolWallet.handleDisconnect (wallet (handshake_cleanup (frame w1)))
            = SolWallet.handleDisconnect built ∧
          ∀ tm, tm ∈ Timers.pending (rt (handshake_cleanup (frame w1))) →
                Timers.cb tm ≠ Timers.poll) as cleaned.
  { intros done. split; [unfold settled; rewrite cleanup_keeps_promise; exact done|].
    split; [rewrite cleanup_restores; exact saved|].
    intros tm inside is_probe.
    apply cleanup_stops_probe in inside as [pending other].
    destruct (timers tm pending) as (tm0 & inside0 & same_tid & same_cb).
    apply other. rewrite handle, same_tid.
    apply executor_owns_probe; [exact inside0|congruence]. }
  destruct (promise (frame w1)) as [[]|e|] eqn:state; simpl;
    intros returned; try congruence;
    apply cleaned; unfold settled; congruence.
Qed.

End AdapterFacts.

(** ** The connection orchestrator *)

Module ProviderFacts.

Import WalletProvider.

(** *** Guards of the capability calls *)

(** C6: with an adapter selected and [connected] false, [sendTransaction]
    hands [WalletNotConnectedError] to the error sink and throws it; it
    does nothing else, whatever the adapter would have answered, so the
    adapter's [sendTransaction] is not called. *)
Theorem sendTransaction_needs_connection {Signature : Type}
    (s : State) (a : AdapterRef) (sent : completion Signature) :
  adapter s = Some a →
  connected s = false →
  sendTransaction s sent []
    = ([onError WalletNotConnectedError], Throw WalletNotConnectedError) ∧
  ∀ a', adapter_sendTransaction a' ∉ trace (sendTransaction s sent).
Proof.
  intros chosen offline.
  assert (sendTransaction s sent []
            = ([onError WalletNotConnectedError], Throw WalletNotConnectedError)) as run.
  { unfold sendTransaction. rewrite chosen, offline. reflexivity. }
  split; [exact run|].
  intros a'. unfold trace. rewrite run. simpl.
  intros [impossible|nowhere]%elem_of_cons; [discriminate|inversion nowhere].
Qed.

Lemma sendTransaction_needs_connection_witness :
  sendTransaction Inputs.selected (Normal "signature") []
    = ([onError WalletNotConnectedError], Throw WalletNotConnectedError).
Proof.
  apply (sendTransaction_needs_connection Inputs.selected 1 (Normal "signature"));
    reflexivity.
Defined.

(** *** The effect of a change of name *)

Lemma trace_reset : trace reset
  = [setReady false; setConnecting false; setDisconnecting false;
     setConnected false; setAutoApprove false; setPublicKey None].
Proof. reflexivity. Qed.

(** C7: the effect run for a change of name first calls the six setters
    of [reset]; when it calls [wallet.adapter()], the hooks updated so far
    hold the initial values of the six fields, whatever they held before;
    it attaches no listener itself; and after it the six fields do not
    depend on what they held before: [ready] is that of the new adapter (or
    false without one) and the other five are the initial values. *)
Theorem name_change_resets_first (wallets : list Wallet.t)
    (live : AdapterRef → AdapterView) (fresh : AdapterRef)
    (name : option WalletName) (s : State) :
  let t := trace (name_effect wallets live fresh name) in
  (∃ rest, t = trace reset ++ rest) ∧
  connection_fields (run s (until_construction t))
    = (false, false, false, false, false, None) ∧
  (∀ a ev, adapter_on a ev ∉ t) ∧
  connection_fields (run s t)
    = (match adapter (run s t) with
       | Some a => adapter_ready (live a)
       | None => false
       end, false, false, false, false, None) ∧
  (∀ s', connection_fields (run s' t) = connection_fields (run s t)).
Proof.
  cbn zeta. unfold name_effect.
  assert (∀ found : option Wallet.t,
    let t := trace
      (reset >>
       let* adapter :=
         match found with
         | Some w => tell (wallet_adapter (Wallet.name w)) >> ret (Some fresh)
         | None => ret None
         end in
       tell (setWallet found) >> tell (setAdapter adapter) >>
       tell (setReady match adapter with
                      | Some a => adapter_ready (live a)
                      | None => false
                      end)) in
    (∃ rest, t = trace reset ++ rest) ∧
    connection_fields (run s (until_construction t))
      = (false, false, false, false, false, None) ∧
    (∀ a ev, adapter_on a ev ∉ t) ∧
    connection_fields (run s t)
      = (match adapter (run s t) with
         | Some a => adapter_ready (live a)
         | None => false
         end, false, false, false, false, None) ∧
    (∀ s', connection_fields (run s' t) = connection_fields (run s t))) as general.
  { intros [w|]; cbn; (split; [eexists; reflexivity|]);
      (split; [reflexivity|]); (split; [|split; [reflexivity|reflexivity]]);
      intros a ev inside; repeat (apply elem_of_cons in inside as [?|inside]; [discriminate|]);
      inversion inside. }
  apply general.
Qed.

(** *** The two flags *)

Lemma apply_calm s a : calm a → exclusive s → exclusive (apply s a).
Proof.
  intros [not_connecting not_disconnecting] apart [c d].
  destruct a as [| | | |[]|[]| | | | | | | | | | |]; simpl in *;
    try congruence; apply apart; auto.
Qed.

Lemma along_calm t : ∀ s,
  exclusive s → Forall calm t → Forall exclusive (states_along s t).
Proof.
  induction t as [|a t IH]; intros s apart quiet; simpl.
  - repeat constructor. exact apart.
  - inversion quiet as [|? ? here later]; subst.
    constructor; [exact apart|]. apply IH; [apply apply_calm; assumption|exact later].
Qed.

Lemma along_connecting s t :
  disconnecting s = false → Forall calm t →
  Forall exclusive (states_along s (setConnecting true :: t)).
Proof.
  intros free quiet. simpl. constructor.
  - intros [_ d]. congruence.
  - apply along_calm; [|exact quiet]. intros [_ d]. simpl in d. congruence.
Qed.

Lemma along_disconnecting s t :
  connecting s = false → Forall calm t →
  Forall exclusive (states_along s (setDisconnecting true :: t)).
Proof.
  intros free quiet. simpl. constructor.
  - intros [c _]. congruence.
  - apply along_calm; [|exact quiet]. intros [c _]. simpl in c. congruence.
Qed.

#[local] Arguments states_along : simpl never.

(** Every stretch of the component keeps the flags apart when the
    discipline is respected, whatever render its closure is of. *)
Lemma stretch_keeps_exclusive autoConnect wallets r s t :
  stretch careful autoConnect wallets r s t →
  exclusive s → Forall exclusive (states_along s t).
Proof.
  intros along apart. destruct along;
    repeat match goal with
           | waits : _ careful = true → _ |- _ => specialize (waits eq_refl)
           end.
  - unfold connect, trace.
    destruct (connecting r), (disconnecting r), (connected r),
      (wallet r), (adapter r), (ready r); simpl;
      first [ apply along_connecting; [assumption|calm_trace]
            | apply along_calm; [exact apart|calm_trace] ].
  - unfold resumed, connect, trace.
    destruct (connecting s0), (disconnecting s0), (connected s0),
      (wallet s0), (adapter s0), (ready s0), c; simpl;
      apply along_calm; first [exact apart|calm_trace].
  - unfold disconnect, select, trace.
    destruct (disconnecting r), (adapter r); simpl; repeat case_decide; simpl;
      first [ apply along_disconnecting; [assumption|calm_trace]
            | apply along_calm; [exact apart|calm_trace] ].
  - unfold resumed, disconnect, select, trace.
    destruct (disconnecting s0), (adapter s0), c, again; simpl;
      repeat case_decide; simpl;
      apply along_calm; first [exact apart|calm_trace].
  - unfold select, trace.
    case_decide; destruct (adapter r); simpl;
      apply along_calm; first [exact apart|calm_trace].
  - unfold resumed, select, trace.
    case_decide; destruct (adapter s0), c; simpl;
      apply along_calm; first [exact apart|calm_trace].
  - unfold sendTransaction, trace.
    destruct (adapter r), (connected r), sent; simpl;
      apply along_calm; first [exact apart|calm_trace].
  - apply along_calm; [exact apart|calm_trace].
  - unfold onConnect, trace. destruct (adapter r); simpl;
      apply along_calm; first [exact apart|calm_trace].
  - apply along_calm; [exact apart|calm_trace].
  - unfold name_effect, trace.
    destruct (name r) as [n|]; [destruct (String.eqb n EmptyString)|];
      try destruct (walletsByName wallets !! n); simpl;
      apply along_calm; first [exact apart|calm_trace].
  - unfold unsubscribe, subscribe, trace.
    destruct (adapter s0), (adapter r); simpl;
      apply along_calm; first [exact apart|calm_trace].
  - unfold autoConnect_effect, trace.
    destruct (adapter r), autoConnect, (ready r); simpl;
      first [ apply along_connecting; [assumption|calm_trace]
            | apply along_calm; [exact apart|calm_trace] ].
  - unfold resumed, autoConnect_effect, trace.
    destruct (adapter s0), autoConnect, (ready s0), c; simpl;
      apply along_calm; first [exact apart|calm_trace].
Qed.


(** The first render, the name effect that follows it, and the render of
    the wallet it has set. *)
Lemma chosen_reachable d autoConnect (is_ready : bool) :
  let s := State_ (Some "Sollet") (Some Inputs.sollet) (Some 1)
             is_ready false false false false None in
  reachable d autoConnect [Inputs.sollet] [s; initial (Some "Sollet")] s.
Proof.
  cbn zeta. apply reachable_render.
  apply (reachable_along _ _ _ _
           (initial (Some "Sollet")) (initial (Some "Sollet"))
           (trace (name_effect [Inputs.sollet] (λ _, View is_ready false None) 1
                     (name (initial (Some "Sollet")))))).
  - apply reachable_initial.
  - apply list_elem_of_here.
  - apply name_changed.
  - destruct is_ready; vm_compute;
      do 10 apply list_elem_of_further; apply list_elem_of_here.
Qed.

(** [connect], called through the render of the wallet, up to its
    [await]. *)
Lemma pending_reachable d autoConnect :
  reachable d autoConnect [Inputs.sollet]
    [Inputs.selected; initial (Some "Sollet")] Inputs.pending.
Proof.
  apply (reachable_along _ _ _ _ Inputs.selected Inputs.selected
           (trace (connect Inputs.selected Awaiting))).
  - apply (chosen_reachable d autoConnect true).
  - apply list_elem_of_here.
  - apply connect_called. reflexivity.
  - vm_compute. do 2 apply list_elem_of_further. apply list_elem_of_here.
Qed.



End ProviderFacts.

(** ** The adapter under the orchestrator *)

Module Together.

(** *** The adapter opens no window *)

Lemma ready_opens_nothing page w :
  ∀ url target,
    window_open url target ∈ SolletWalletAdapter.browser (fst (SolletWalletAdapter.ready page w)) →
    window_open url target ∈ SolletWalletAdapter.browser w.
Proof.
  intros url target.
  unfold SolletWalletAdapter.ready, bind, gets, ret, await, SolletWalletAdapter.call, modify.
  repeat case_match; simpl; intros inside;
    repeat (apply elem_of_app in inside as [inside|inside]);
    try assumption;
    apply list_elem_of_singleton in inside; discriminate.
Qed.

(** C5, as stated, fails: with no provider configured and no
    [window.sollet], the readiness check of the adapter returns false and
    [connect] throws [WalletNotReadyError], but no window has been opened. *)
Lemma adapter_connect_opens_no_url :
  let env := Inputs.env None in
  let w := SolletWalletAdapter.initial Inputs.default_config [] in
  snd (SolletWalletAdapter.ready (SolletWalletAdapter.page env) w) = Normal false ∧
  snd (SolletWalletAdapter.connect env w) = Throw WalletNotReadyError ∧
  ¬ ∃ url target,
      window_open url target
        ∈ SolletWalletAdapter.browser (fst (SolletWalletAdapter.connect env w)).
Proof.
  cbn zeta. split; [reflexivity|]. split; [reflexivity|].
  intros (url & target & inside). vm_compute in inside. inversion inside.
Qed.

(** C5, as the code has it: when its readiness check returns false the
    adapter's [connect] emits 'error' with [WalletNotReadyError], throws it,
    builds no transport and opens no window; it is the provider's [connect]
    that, with a wallet selected, nothing in progress and [ready] false,
    opens the wallet's URL in a new browsing context, hands
    [WalletNotReadyError] to the error sink and throws it, without calling
    the adapter. *)
Theorem not_ready_prompts_from_the_provider :
  (∀ env w,
     SolletWalletAdapter.connected (SolletWalletAdapter.this w)
       || SolletWalletAdapter.connecting (SolletWalletAdapter.this w) = false →
     snd (SolletWalletAdapter.ready (SolletWalletAdapter.page env)
            (SolletWalletAdapter.on_this (SolletWalletAdapter.set_connecting true) w))
       = Normal false →
     let after := SolletWalletAdapter.connect env w in
     snd after = Throw WalletNotReadyError ∧
     SolletWalletAdapter.emitted (fst after)
       = SolletWalletAdapter.emitted w
           ++ [SolletWalletAdapter.emit_error WalletNotReadyError] ∧
     SolletWalletAdapter.constructed (fst after) = SolletWalletAdapter.constructed w ∧
     ∀ url target,
       window_open url target ∈ SolletWalletAdapter.browser (fst after) →
       window_open url target ∈ SolletWalletAdapter.browser w) ∧
  (∀ s wallet adapter result,
     WalletProvider.connecting s || WalletProvider.disconnecting s
       || WalletProvider.connected s = false →
     WalletProvider.wallet s = Some wallet →
     WalletProvider.adapter s = Some adapter →
     WalletProvider.ready s = false →
     WalletProvider.connect s result []
       = ([WalletProvider.browser
             (window_open (WalletProvider.Wallet.url wallet) "_blank");
           WalletProvider.onError WalletNotReadyError],
          Throw WalletNotReadyError)).
Proof.
  split.
  - intros env w free unready.
    set (w0 := SolletWalletAdapter.on_this (SolletWalletAdapter.set_connecting true) w)
      in *.
    pose proof (ready_opens_nothing (SolletWalletAdapter.page env) w0) as quiet.
    assert (SolletWalletAdapter.emitted
              (fst (SolletWalletAdapter.ready (SolletWalletAdapter.page env) w0))
              = SolletWalletAdapter.emitted w ∧
            SolletWalletAdapter.constructed
              (fst (SolletWalletAdapter.ready (SolletWalletAdapter.page env) w0))
              = SolletWalletAdapter.constructed w) as [same_emitted same_constructed].
    { unfold SolletWalletAdapter.ready, bind, gets, ret, await,
        SolletWalletAdapter.call, modify.
      repeat case_match; split; reflexivity. }
    assert (SolletWalletAdapter.connect env w
              = (SolletWalletAdapter.on_this (SolletWalletAdapter.set_connecting false)
                   (SolletWalletAdapter.emitting
                      (SolletWalletAdapter.emit_error WalletNotReadyError)
                      (fst (SolletWalletAdapter.ready (SolletWalletAdapter.page env) w0))),
                 Throw WalletNotReadyError)) as run.
    { destruct (SolletWalletAdapter.ready (SolletWalletAdapter.page env) w0)
        as [w1 c] eqn:checked.
      simpl in unready. subst c.
      unfold SolletWalletAdapter.connect. rewrite try_finally_modify.
      unfold try_catch at 1. unfold bind at 1. unfold gets at 1. rewrite free.
      unfold bind at 1. unfold modify at 1.
      unfold bind at 1. fold w0. rewrite checked. reflexivity. }
    cbn zeta. rewrite run. simpl. rewrite same_emitted, same_constructed.
    repeat split. intros url target inside. apply quiet in inside. exact inside.
  - intros s wallet adapter result free chosen built unready.
    unfold WalletProvider.connect. rewrite free, chosen, built, unready. reflexivity.
Qed.

Lemma not_ready_prompts_from_the_provider_witness :
  snd (SolletWalletAdapter.connect (Inputs.env None)
         (SolletWalletAdapter.initial Inputs.default_config []))
    = Throw WalletNotReadyError ∧
  WalletProvider.connect Inputs.not_ready (Normal tt) []
    = ([WalletProvider.browser (window_open "https://www.sollet.io" "_blank");
        WalletProvider.onError WalletNotReadyError],
       Throw WalletNotReadyError).
Proof.
  destruct not_ready_prompts_from_the_provider as [from_adapter from_provider].
  split.
  - destruct (from_adapter (Inputs.env None)
                (SolletWalletAdapter.initial Inputs.default_config [])
                eq_refl eq_refl) as [thrown _].
    exact thrown.
  - apply (from_provider Inputs.not_ready Inputs.sollet 1 (Normal tt)); reflexivity.
Defined.

(** *** Calls made while one is in progress *)

(** A [connect] of the provider made from a render in which [connecting],
    [disconnecting] or [connected] is true does nothing: no setter and no
    adapter is called. *)
Lemma provider_connect_is_guarded s result :
  WalletProvider.connecting s || WalletProvider.disconnecting s
    || WalletProvider.connected s = true →
  WalletProvider.connect s result [] = ([], Normal tt).
Proof. intros busy. unfold WalletProvider.connect. rewrite busy. reflexivity. Qed.

End Together.

(** ** The course of [connect] *)

Module Handshakes.

Import SolletWalletAdapter Race AdapterFacts.

(** *** The readiness check *)

Lemma ready_keeps page w :
  seen (fst (ready page w)) = (this w, emitted w, constructed w,
                               browser (fst (ready page w)), frame w) ∧
  future (fst (ready page w)) = future w.
Proof.
  unfold ready, bind, gets, ret, await, call, modify, seen, outside.
  repeat case_match; simpl; split; reflexivity.
Qed.

(** X1: [ready] never throws and changes nothing of the adapter; when it
    answers, the answer is whether the page exists and a provider is
    configured as a string or as an object with [postMessage], or
    [window.sollet] has one; it only waits when nothing usable is
    configured, the document is still loading and the 'load' event never
    comes; and when it answers, a 'load' listener it has added is removed
    again. *)
Theorem ready_decides page w :
  let r := ready page w in
  let usable :=
    is_string (_provider (this w)) || has_postMessage (_provider (this w)) in
  (∀ e, snd r ≠ Throw e) ∧
  (this (fst r), emitted (fst r), constructed (fst r), future (fst r), frame (fst r))
    = (this w, emitted w, constructed w, future w, frame w) ∧
  (∀ b, snd r = Normal b →
     b = window_defined page && document_defined page
         && (usable || sollet_injected page)) ∧
  (snd r = Awaiting ↔
     window_defined page && document_defined page && negb usable
       && negb (readyState_complete page) && negb (load_fires page) = true) ∧
  (browser (fst r) = browser w ∨
   (browser (fst r) = browser w ++ [window_addEventListener "load"] ∧
    snd r = Awaiting) ∨
   browser (fst r) = browser w ++ [window_addEventListener "load";
                                    window_removeEventListener "load"]).
Proof.
  cbn zeta. unfold ready, bind, gets, ret, await, call, modify, calling,
    sollet_injected, has_postMessage, is_string.
  destruct page as [has_window has_document complete fires injected].
  destruct (_provider (this w)) as [[url|[]]|], has_window, has_document, complete,
    fires, injected as [[]|]; simpl;
    repeat split; intros; try discriminate; try congruence;
    rewrite <- ?app_assoc; auto.
Qed.

(** *** [connect], stage by stage *)

Lemma connect_staged env w :
  connected (this w) || connecting (this w) = false →
  connect env w = staged env w.
Proof.
  intros free. unfold staged.
  pose proof (ready_keeps (page env) (on_this (set_connecting true) w)) as [kept _].
  destruct (ready (page env) (on_this (set_connecting true) w)) as [w1 c] eqn:checked.
  unfold connect. rewrite try_finally_modify.
  unfold try_catch at 1. unfold bind at 1. unfold gets at 1. rewrite free.
  unfold bind at 1. unfold modify at 1.
  unfold bind at 1. rewrite checked.
  destruct w1 as [a1 em1 co1 br1 fu1 f1]. unfold seen, outside in kept. simpl in kept.
  injection kept as -> -> -> ->.
  destruct c as [[]|e|]; try reflexivity.
  cbn [negb]. unfold bind at 1. unfold try_catch at 1. unfold await at 1.
  destruct (imported env) as [[]|e|]; try reflexivity.
  unfold bind at 1. unfold try_catch at 1. unfold new_SolWalletAdapter.
  destruct (construction env) as [e|]; [reflexivity|].
  cbn zeta. unfold conclude, racing.
  remember (settle _ _) as w2 eqn:race.
  unfold bind at 1. unfold modify at 1. unfold ret at 1.
  unfold bind at 1. unfold try_catch at 1. unfold handshake.
  unfold bind at 1. rewrite try_finally_modify.
  unfold bind at 1. unfold modify at 1. unfold await_race.
  match goal with |- context [settle ?evs ?w0] =>
    replace (settle evs w0) with w2 by (rewrite race; reflexivity) end.
  clear race. destruct (promise (frame w2)) as [[]|e|]; try reflexivity.
  destruct (instanceof_WalletError e); reflexivity.
Qed.

(** *** Failures before the race *)

(** X2: when the readiness check passes, a failure of the import is thrown
    as a [WalletLoadError], and a failure of the transport's constructor as
    a [WalletConfigError], each carrying the message of the failure and the
    failure itself, also where the failure already is a [WalletError]; the
    wrapped error is the one event the call emits, and the adapter is left
    without a new session and not connecting. *)
Theorem connect_wraps_setup_failures env w inner :
  connected (this w) || connecting (this w) = false →
  snd (ready (page env) (on_this (set_connecting true) w)) = Normal true →
  let after := fst (connect env w) in
  let ends_with e :=
    snd (connect env w) = Throw e ∧
    emitted after = emitted w ++ [emit_error e] ∧
    constructed after = constructed w ∧
    _wallet (this after) = _wallet (this w) ∧
    _connecting (this after) = false in
  (imported env = Throw inner →
     ends_with (WalletLoadError (message inner) inner)) ∧
  (imported env = Normal tt → construction env = Some inner →
     ends_with (WalletConfigError (message inner) inner)).
Proof.
  intros free is_ready. cbn zeta.
  rewrite (connect_staged env w free). unfold staged.
  pose proof (ready_keeps (page env) (on_this (set_connecting true) w)) as [kept _].
  destruct (ready (page env) (on_this (set_connecting true) w)) as [w1 c].
  simpl in is_ready. subst c.
  destruct w1 as [a1 em1 co1 br1 fu1 f1]. unfold seen, outside in kept. simpl in kept.
  injection kept as -> -> -> ->.
  split.
  - intros ->. repeat split.
  - intros -> ->. repeat split.
Qed.

Lemma connect_wraps_setup_failures_witness :
  snd (connect (Env_ (Inputs.loaded None) (Throw (Thrown (Some "offline"))) None)
         (initial Inputs.popup_config []))
    = Throw (WalletLoadError (Some "offline") (Thrown (Some "offline"))) ∧
  snd (connect (Env_ (Inputs.loaded None) (Normal tt) (Some WalletNotReadyError))
         (initial Inputs.popup_config []))
    = Throw (WalletConfigError None WalletNotReadyError).
Proof.
  split.
  - destruct (connect_wraps_setup_failures
                (Env_ (Inputs.loaded None) (Throw (Thrown (Some "offline"))) None)
                (initial Inputs.popup_config []) (Thrown (Some "offline"))
                eq_refl eq_refl) as [load _].
    destruct (load eq_refl) as [thrown _]. exact thrown.
  - destruct (connect_wraps_setup_failures
                (Env_ (Inputs.loaded None) (Normal tt) (Some WalletNotReadyError))
                (initial Inputs.popup_config []) WalletNotReadyError
                eq_refl eq_refl) as [_ config].
    destruct (config eq_refl eq_refl) as [thrown _]. exact thrown.
Defined.

(** *** Calls on a connected adapter *)

(** X3: [connect] on an adapter that is connected, and not in another
    call of [connect], changes nothing: no event, no transport, no call of
    the browser, and it returns. *)
Theorem connect_when_connected_changes_nothing env w :
  connected (this w) = true →
  connecting (this w) = false →
  connect env w = (w, Normal tt).
Proof.
  intros live idle. rewrite connect_while_busy by (rewrite live; reflexivity).
  destruct w as [[p n c s] em co br fu f]. simpl in idle. subst c. reflexivity.
Qed.

Lemma connect_when_connected_changes_nothing_witness :
  connect (Inputs.env None) Inputs.connected_world
    = (Inputs.connected_world, Normal tt).
Proof.
  apply (connect_when_connected_changes_nothing (Inputs.env None)
           Inputs.connected_world); reflexivity.
Defined.

(** *** The provider that is the empty string *)

(** X4: a provider configured as the empty string passes the readiness
    check as a string but is then replaced by [window.sollet]: when that is
    an injected transport, the transport of the adapter is built on it and
    the handshake runs as for an extension: called while no timer is armed,
    it arms the timer of 10 s, the one timer there is then, and no probe of
    a popup, so that it ends with [WalletTimeoutError] when nothing
    answers. *)
Theorem empty_url_falls_back_on_sollet env w :
  connected (this w) || connecting (this w) = false →
  window_defined (page env) = true →
  document_defined (page env) = true →
  imported env = Normal tt →
  construction env = None →
  _provider (this w) = Some (provider_url "") →
  sollet (page env) = Some true →
  unarmed (rt (frame w)) →
  (∃ suspended,
     connect env (set_future [] w) = (suspended, Awaiting) ∧
     constructed suspended
       = constructed w ++ [(Some (provider_object true), _network (this w))] ∧
     Timers.pending (rt (frame suspended))
       = [Timers.Timer 1 (Timers.now (rt (frame w)) + 10000) None
            Timers.connect_timeout] ∧
     Timers.earlier (rt (frame suspended)) = [] ∧
     interval (frame suspended) = None) ∧
  ∀ rest,
    snd (connect env (set_future (timer_fires :: rest) w)) = Throw WalletTimeoutError.
Proof.
  intros free has_window has_document loaded built given injected calm.
  assert (∀ evs,
    connect env (set_future evs w) =
      conclude
        (settle evs
           (racing (set_future evs w) (Some (provider_object true))
              (timing (Timers.now (rt (frame w))) [] (hooked SolWallet.fresh)
                 SolWallet.library_handler)))) as run.
  { intros evs.
    rewrite (connect_into_handshake env (set_future evs w)
               (Some (provider_object true))); try assumption.
    - rewrite executor_extension by reflexivity.
      simpl (rt _). rewrite (found_armed_none _ calm). reflexivity.
    - apply ready_popup; try assumption. simpl. rewrite given. reflexivity.
    - unfold provider_or_sollet. simpl. rewrite given, injected. reflexivity. }
  split.
  - eexists. rewrite run. repeat split.
  - intros rest. rewrite run. unfold racing.
    rewrite settle_waiting by reflexivity. rewrite timer_times_out.
    rewrite settle_settled by (unfold settled; simpl; congruence).
    reflexivity.
Qed.

Lemma empty_url_falls_back_on_sollet_witness :
  snd (connect (Inputs.env (Some true))
         (set_future [timer_fires] (initial (Config_ (Some (provider_url "")) None) [])))
    = Throw WalletTimeoutError.
Proof.
  destruct (empty_url_falls_back_on_sollet (Inputs.env (Some true))
              (initial (Config_ (Some (provider_url "")) None) [])
              eq_refl eq_refl eq_refl eq_refl eq_refl eq_refl eq_refl
              (conj eq_refl eq_refl)) as [_ late].
  apply late.
Defined.

(** *** The race, won by the transport *)

(** What the 'connect' event of the transport makes of a handshake of the
    popup flow that is under way. *)
Lemma polling_connects a em co br fu clock stale k wallet saved pk :
  SolWallet.on_connect wallet = [SolWallet.connect_closure] →
  deliver (transport_connects pk)
      (World_ a em co br fu (polling clock stale k wallet saved))
    = World_ a em co br fu
        (Frame_
           (Timers.Runtime (clock + 100 * Z.of_nat k) 2
              [Timers.Timer 1 (clock + 100 * Z.of_nat (S k)) (Some 100%Z) Timers.poll]
              stale)
           (SolWallet.off_connect SolWallet.connect_closure
              (SolWallet.with_identity (Some pk) true wallet))
           (Normal tt) [connect_catch] saved None (Some 1) (Z.of_nat k)).
Proof.
  intros one. unfold deliver, polling. simpl. rewrite one. reflexivity.
Qed.

Lemma timing_connects a em co br fu clock stale wallet saved pk :
  SolWallet.on_connect wallet = [SolWallet.connect_closure] →
  deliver (transport_connects pk)
      (World_ a em co br fu (timing clock stale wallet saved))
    = World_ a em co br fu
        (Frame_ (Timers.Runtime clock 2 [] stale)
           (SolWallet.off_connect SolWallet.connect_closure
              (SolWallet.with_identity (Some pk) true wallet))
           (Normal tt) [connect_catch] saved (Some 1) None 0).
Proof.
  intros one. unfold deliver, timing. simpl. rewrite one. reflexivity.
Qed.

(** X5: when the transport connects, after any number of runs of the probe
    that found no popup yet in the popup flow, or at once in the extension
    flow, a [connect] called while no timer is armed returns: the adapter
    is connected with the key of the transport, it has emitted 'connect'
    and nothing else, the events that follow are left for later, and of
    the race nothing stays behind: no 'connect' listener, no timer armed,
    the library's [handleDisconnect], and [_disconnected] as the one
    listener of 'disconnect'. *)
Theorem connect_succeeds_cleanly env w pk rest :
  connected (this w) || connecting (this w) = false →
  window_defined (page env) = true →
  document_defined (page env) = true →
  imported env = Normal tt →
  construction env = None →
  unarmed (rt (frame w)) →
  let clean r :=
    snd r = Normal tt ∧
    connected (this (fst r)) = true ∧
    connecting (this (fst r)) = false ∧
    publicKey (this (fst r)) = Some pk ∧
    emitted (fst r) = emitted w ++ [emit_connect] ∧
    future (fst r) = rest ∧
    unarmed (rt (frame (fst r))) ∧
    ∃ session,
      _wallet (this (fst r)) = Some session ∧
      SolWallet.on_connect session = [] ∧
      SolWallet.on_disconnect session = [SolWallet._disconnected] ∧
      SolWallet.handleDisconnect session = SolWallet.library_handler in
  (popup_flow (this w) →
     ∀ n, n ≤ 51 →
       clean (connect env
                (set_future (replicate n timer_fires ++ transport_connects pk :: rest) w))) ∧
  (extension_flow (this w) (page env) →
     clean (connect env (set_future (transport_connects pk :: rest) w))).
Proof.
  intros free has_window has_document loaded built calm. cbn zeta. split.
  - intros (url & given & nonempty) n within.
    rewrite (connect_popup env w url) by assumption.
    rewrite (found_armed_none _ calm).
    unfold racing. rewrite polls_go_on by (right; split; [reflexivity|lia]).
    rewrite settle_waiting by reflexivity.
    rewrite polling_connects by reflexivity.
    rewrite settle_settled by (unfold settled; simpl; congruence).
    unfold conclude. simpl. repeat split. eexists. repeat split.
  - intros flow.
    rewrite (connect_extension env w) by assumption.
    rewrite (found_armed_none _ calm).
    unfold racing. rewrite settle_waiting by reflexivity.
    rewrite timing_connects by reflexivity.
    rewrite settle_settled by (unfold settled; simpl; congruence).
    unfold conclude. simpl. repeat split. eexists. repeat split.
Qed.

Lemma connect_succeeds_cleanly_witness :
  snd (connect (Inputs.env None)
         (set_future (replicate 3 timer_fires ++ [transport_connects "key"])
            (initial Inputs.popup_config [])))
    = Normal tt ∧
  publicKey
    (this (fst (connect (Inputs.env None)
                  (set_future [transport_connects "key"]
                     (initial Inputs.extension_config [])))))
    = Some "key".
Proof.
  split.
  - destruct (connect_succeeds_cleanly (Inputs.env None)
                (initial Inputs.popup_config []) "key" []
                eq_refl eq_refl eq_refl eq_refl eq_refl (conj eq_refl eq_refl))
      as [popup _].
    destruct (popup (ex_intro _ "https://www.sollet.io"
                       (conj eq_refl (λ H, eq_ind "https://www.sollet.io"
                          (λ s, match s with EmptyString => False | _ => True end)
                          I _ H))) 3) as [returned _].
    + repeat constructor.
    + exact returned.
  - destruct (connect_succeeds_cleanly (Inputs.env None)
                (initial Inputs.extension_config []) "key" []
                eq_refl eq_refl eq_refl eq_refl eq_refl (conj eq_refl eq_refl))
      as [_ extension].
    destruct (extension (or_introl eq_refl)) as (_ & _ & _ & key & _).
    exact key.
Defined.

(** *** The race, lost to a rejection of the transport *)

(** X6: when the promise of the transport's [connect] rejects before
    anything else happens, [connect] throws the reason itself if it is a
    [WalletError], and otherwise a [WalletConnectionError] that carries the
    message of the reason and the reason; what it throws is the one event
    it emits, as 'error'; the session of the adapter is as before, and the
    'connect' listener is off the transport, whose [handleDisconnect] is
    the library's again. *)
Theorem rejected_handshake_is_wrapped env w reason rest :
  connected (this w) || connecting (this w) = false →
  window_defined (page env) = true →
  document_defined (page env) = true →
  imported env = Normal tt →
  construction env = None →
  popup_flow (this w) ∨ extension_flow (this w) (page env) →
  let r := connect env (set_future (connect_rejects reason :: rest) w) in
  let thrown :=
    if instanceof_WalletError reason then reason
    else WalletConnectionError (message reason) reason in
  snd r = Throw thrown ∧
  emitted (fst r) = emitted w ++ [emit_error thrown] ∧
  _wallet (this (fst r)) = _wallet (this w) ∧
  connecting (this (fst r)) = false ∧
  future (fst r) = rest ∧
  SolWallet.on_connect (wallet (frame (fst r))) = [] ∧
  SolWallet.handleDisconnect (wallet (frame (fst r))) = SolWallet.library_handler.
Proof.
  intros free has_window has_document loaded built [(url & given & nonempty)|flow];
    cbn zeta.
  - rewrite (connect_popup env w url) by assumption.
    unfold racing. rewrite settle_waiting by reflexivity.
    rewrite settle_settled by (unfold settled; simpl; congruence).
    unfold conclude. simpl. destruct (instanceof_WalletError reason); repeat split.
  - rewrite (connect_extension env w) by assumption.
    unfold racing. rewrite settle_waiting by reflexivity.
    rewrite settle_settled by (unfold settled; simpl; congruence).
    unfold conclude. simpl. destruct (instanceof_WalletError reason); repeat split.
Qed.

Lemma rejected_handshake_is_wrapped_witness :
  snd (connect (Inputs.env None)
         (set_future [connect_rejects (Thrown (Some "refused"))]
            (initial Inputs.extension_config [])))
    = Throw (WalletConnectionError (Some "refused") (Thrown (Some "refused"))).
Proof.
  destruct (rejected_handshake_is_wrapped (Inputs.env None)
              (initial Inputs.extension_config []) (Thrown (Some "refused")) []
              eq_refl eq_refl eq_refl eq_refl eq_refl (or_intror (or_introl eq_refl)))
    as [thrown _].
  exact thrown.
Defined.

(** *** The popup that stays open *)

(** X7: in the popup flow the handshake has no deadline of its own: once
    the transport has a popup that is open, every run of the probe leaves
    the race as it is, however many there are; the call goes on waiting,
    the probe armed for its next run. *)
Theorem open_popup_has_no_deadline env w n :
  connected (this w) || connecting (this w) = false →
  window_defined (page env) = true →
  document_defined (page env) = true →
  imported env = Normal tt →
  construction env = None →
  popup_flow (this w) →
  let r := connect env
             (set_future (popup_becomes (Some false) :: replicate n timer_fires) w) in
  snd r = Awaiting ∧
  count (frame (fst r)) = Z.of_nat n ∧
  Timers.now (rt (frame (fst r)))
    = (Timers.now (rt (frame w)) + 100 * Z.of_nat n)%Z ∧
  Timers.pending (rt (frame (fst r)))
    = [Timers.Timer 1 (Timers.now (rt (frame w)) + 100 * Z.of_nat (S n))
         (Some 100%Z) Timers.poll].
Proof.
  intros free has_window has_document loaded built (url & given & nonempty).
  cbn zeta. rewrite (connect_popup env w url) by assumption.
  unfold racing. rewrite settle_waiting by reflexivity. rewrite popup_changes.
  rewrite <- (app_nil_r (replicate n timer_fires)).
  rewrite polls_go_on by (left; reflexivity).
  repeat split.
Qed.

Lemma open_popup_has_no_deadline_witness :
  snd (connect (Inputs.env None)
         (set_future (popup_becomes (Some false) :: replicate 200 timer_fires)
            (initial Inputs.popup_config [])))
    = Awaiting.
Proof.
  destruct (open_popup_has_no_deadline (Inputs.env None)
              (initial Inputs.popup_config []) 200
              eq_refl eq_refl eq_refl eq_refl eq_refl) as [waiting _].
  - exists "https://www.sollet.io". split; [reflexivity|discriminate].
  - exact waiting.
Defined.

(** *** The race, whoever wins *)

(** A handshake of the popup flow that the probe ends, blocked. *)
Lemma settled_handshake_is_cleaned_witness :
  SolWallet.handleDisconnect
    (wallet (frame (fst (handshake (Some (provider_url "https://www.sollet.io"))
                           SolWallet.fresh
                           (initial Inputs.popup_config
                              (replicate 52 timer_fires))))))
    = SolWallet.library_handler.
Proof.
  destruct (settled_handshake_is_cleaned
              (Some (provider_url "https://www.sollet.io")) SolWallet.fresh
              (initial Inputs.popup_config (replicate 52 timer_fires)))
    as (_ & restored & _).
  - vm_compute. discriminate.
  - exact restored.
Defined.

(** *** What holds throughout a handshake *)

Lemma earliest_pending ts tm : Timers.earliest ts = Some tm → tm ∈ ts.
Proof.
  revert tm. induction ts as [|x l IH]; intros tm found; simpl in found; [discriminate|].
  destruct (Timers.earliest l) as [y|].
  - case_match; injection found as <-.
    + apply list_elem_of_further, IH. reflexivity.
    + apply list_elem_of_here.
  - injection found as <-. apply list_elem_of_here.
Qed.

Lemma fire_runs_pending rt0 c rt1 :
  Timers.fire rt0 = Some (c, rt1) → ∃ tm, tm ∈ Timers.pending rt0 ∧ Timers.cb tm = c.
Proof.
  unfold Timers.fire. intros fired.
  destruct (Timers.earliest (Timers.pending rt0)) as [first|] eqn:found; [|discriminate].
  injection fired as <- _. exists first. split; [|reflexivity].
  apply earliest_pending, found.
Qed.

Lemma executor_handshaking provider rt0 :
  handshaking (handshake_executor provider SolWallet.fresh rt0).
Proof.
  unfold handshaking, handshake_executor.
  destruct (is_string provider); simpl; repeat split; auto; try discriminate;
    intros tm inside; apply list_elem_of_singleton in inside as ->; simpl; auto.
Qed.

(** A step of the race that does not resolve it. *)
Lemma handshaking_goes_on f f' :
  handshaking f →
  reactions f' = reactions f →
  handleDisconnect f' = handleDisconnect f →
  SolWallet.handleDisconnect (wallet f') = SolWallet.handleDisconnect (wallet f) →
  SolWallet.on_disconnect (wallet f') = SolWallet.on_disconnect (wallet f) →
  (SolWallet.on_connect (wallet f') = SolWallet.on_connect (wallet f) ∨
   SolWallet.on_connect (wallet f') = []) →
  interval f' = interval f →
  timeout f' = timeout f →
  (∀ tm, tm ∈ Timers.pending (rt f') →
     ∃ tm0, tm0 ∈ Timers.pending (rt f) ∧
            Timers.tid tm = Timers.tid tm0 ∧ Timers.cb tm = Timers.cb tm0) →
  promise f' ≠ Normal tt →
  handshaking f'.
Proof.
  intros (reacts & saved & hook & quiet & listens & timers & won)
    same_reacts same_saved same_hook same_quiet fewer same_interval same_timeout
    kept unresolved.
  unfold handshaking.
  rewrite same_reacts, same_saved, same_hook, same_quiet, same_interval, same_timeout.
  repeat split; try assumption.
  - destruct fewer as [same|none]; [rewrite same; exact listens|right; exact none].
  - intros tm inside. destruct (kept tm inside) as (tm0 & inside0 & same_tid & same_cb).
    rewrite same_tid, same_cb. apply timers, inside0.
  - contradiction.
  - contradiction.
  - contradiction.
  - contradiction.
Qed.

Lemma off_connect_empties wallet :
  SolWallet.on_connect wallet = [SolWallet.connect_closure] ∨
  SolWallet.on_connect wallet = [] →
  SolWallet.on_connect (SolWallet.off_connect SolWallet.connect_closure wallet) = [].
Proof. intros [one|none]; unfold SolWallet.off_connect; simpl; rewrite ?one, ?none; reflexivity. Qed.

Lemma reject_unresolved e f : promise f = Awaiting → promise (reject e f) ≠ Normal tt.
Proof. intros waiting. unfold reject. rewrite waiting. discriminate. Qed.

(** The listener of 'connect' wins the race. *)
Lemma connect_listener_handshaking f :
  handshaking f → promise f = Awaiting →
  SolWallet.connected (wallet f) = true →
  is_Some (SolWallet.publicKey (wallet f)) →
  handshaking (connect_listener f).
Proof.
  intros (reacts & saved & hook & quiet & listens & timers & won) waiting live known.
  unfold connect_listener, resolve. rewrite promise_on_wallet, promise_clear_if_set, waiting.
  unfold handshaking. simpl.
  rewrite reactions_clear_if_set.
  assert (∀ h, handleDisconnect (clear_if_set h f) = handleDisconnect f) as keep_saved
    by (intros [id|]; reflexivity).
  assert (∀ h, wallet (clear_if_set h f) = wallet f) as keep_wallet
    by (intros [id|]; reflexivity).
  assert (∀ h, interval (clear_if_set h f) = interval f) as keep_interval
    by (intros [id|]; reflexivity).
  assert (∀ h, timeout (clear_if_set h f) = timeout f) as keep_timeout
    by (intros [id|]; reflexivity).
  rewrite keep_saved, keep_wallet, keep_interval, keep_timeout.
  assert (∀ tm, tm ∈ Timers.pending (rt (clear_if_set (timeout f) f)) →
                tm ∈ Timers.pending (rt f) ∧ Timers.cb tm = Timers.poll) as cleared.
  { intros tm inside. destruct (timeout f) as [id|] eqn:handle; simpl in inside.
    - apply clear_keeps in inside as [inside other]. split; [exact inside|].
      destruct (timers tm inside) as [[probe _]|[_ held]]; [exact probe|congruence].
    - split; [exact inside|].
      destruct (timers tm inside) as [[probe _]|[_ held]]; [exact probe|congruence]. }
  repeat split; try assumption.
  - right. apply off_connect_empties, listens.
  - intros tm inside. apply cleared in inside as [inside _]. apply timers, inside.
  - apply off_connect_empties, listens.
  - intros tm inside. apply cleared in inside as [_ probe]. exact probe.
Qed.

(** No task changes what a handshake under way is, nor anything outside
    its frame. *)
Lemma deliver_handshaking ev w :
  promise (frame w) = Awaiting →
  handshaking (frame w) →
  handshaking (frame (deliver ev w)) ∧ outside (deliver ev w) = outside w.
Proof.
  intros waiting inv.
  pose proof inv as (reacts & saved & hook & quiet & listens & timers & won).
  destruct w as [a em co br fu f]. simpl in *.
  destruct ev; unfold deliver; simpl.
  - (* the transport connects *)
    destruct listens as [one|none].
    + rewrite one. simpl. split; [|reflexivity].
      apply connect_listener_handshaking; simpl; try assumption; try reflexivity.
      * apply (handshaking_goes_on f); simpl; auto; try congruence.
        intros tm inside. exists tm. auto.
      * eauto.
    + rewrite none. simpl. split; [|reflexivity].
      apply (handshaking_goes_on f); simpl; auto; try congruence.
      intros tm inside. exists tm. auto.
  - rewrite quiet. simpl. auto.
  - unfold has_reaction. rewrite reacts. simpl. split; [|reflexivity].
    unfold connect_rejected, reject. simpl. rewrite waiting.
    apply (handshaking_goes_on f); simpl; auto; try discriminate.
    + right. apply off_connect_empties, listens.
    + intros tm inside. exists tm. auto.
  - unfold has_reaction. rewrite reacts. simpl. auto.
  - unfold has_reaction. rewrite reacts. simpl. auto.
  - rewrite hook. simpl. split; [|reflexivity].
    unfold connect_hook, reject. simpl. rewrite waiting. simpl.
    apply (handshaking_goes_on f); simpl; auto; try discriminate.
    + right. apply off_connect_empties, listens.
    + intros tm inside. exists tm. auto.
  - split; [|reflexivity].
    apply (handshaking_goes_on f); simpl; auto; try congruence.
    intros tm inside. exists tm. auto.
  - destruct (Timers.fire (rt f)) as [[c rt1]|] eqn:fired; simpl; [|auto].
    split; [|reflexivity].
    destruct (fire_runs_pending _ _ _ fired) as (tm & inside & ran).
    pose proof (fire_keeps _ _ _ fired) as kept.
    destruct (timers tm inside) as [[probe _]|[late _]].
    + rewrite probe in ran. subst c. simpl. unfold poll, reject. simpl. rewrite waiting.
      repeat case_match; apply (handshaking_goes_on f); simpl; auto; try congruence.
    + rewrite late in ran. subst c. simpl. unfold timed_out, reject. simpl.
      rewrite waiting.
      apply (handshaking_goes_on f); simpl; auto; try congruence.
  - split; [|reflexivity].
    apply (handshaking_goes_on f); simpl; auto; try congruence.
    rewrite lapse_pending. intros tm inside. exists tm. auto.
Qed.

Lemma settle_handshaking evs : ∀ w,
  handshaking (frame w) →
  handshaking (frame (settle evs w)) ∧ outside (settle evs w) = outside w.
Proof.
  induction evs as [|ev evs IH]; intros w inv; simpl.
  - destruct (promise (frame w)); auto.
  - destruct (promise (frame w)) eqn:state; auto.
    destruct (deliver_handshaking ev w state inv) as [inv1 same1].
    destruct (IH _ inv1) as [inv2 same2].
    split; [exact inv2|congruence].
Qed.

Lemma cleanup_clears_probes f :
  (∀ tm, tm ∈ Timers.pending (rt f) → interval f = Some (Timers.tid tm)) →
  Timers.pending (rt (handshake_cleanup f)) = [].
Proof.
  unfold handshake_cleanup, clear_if_set. simpl. intros held.
  destruct (interval f) as [id|]; simpl.
  - induction (Timers.pending (rt f)) as [|tm l IH]; [reflexivity|]. simpl.
    assert (Timers.tid tm = id) as ->
      by (specialize (held tm (list_elem_of_here _ _)); congruence).
    rewrite Nat.eqb_refl. simpl. apply IH.
    intros tm' inside. apply held, list_elem_of_further, inside.
  - destruct (Timers.pending (rt f)) as [|tm l]; [reflexivity|].
    specialize (held tm (list_elem_of_here _ _)). discriminate.
Qed.

(** *** A race leaves the timers of earlier calls alone *)

Lemma earlier_resolve f : Timers.earlier (rt (resolve f)) = Timers.earlier (rt f).
Proof. unfold resolve. destruct (promise f); reflexivity. Qed.

Lemma earlier_reject e f : Timers.earlier (rt (reject e f)) = Timers.earlier (rt f).
Proof. unfold reject. destruct (promise f); reflexivity. Qed.

Lemma earlier_clear_if_set h f :
  Timers.earlier (rt (clear_if_set h f)) = Timers.earlier (rt f).
Proof. destruct h; reflexivity. Qed.

Lemma earlier_fire rt0 c rt1 :
  Timers.fire rt0 = Some (c, rt1) → Timers.earlier rt1 = Timers.earlier rt0.
Proof.
  unfold Timers.fire. destruct (Timers.earliest _); [|discriminate].
  intros [= _ <-]. reflexivity.
Qed.

Lemma earlier_run_callback c f :
  Timers.earlier (rt (run_callback c f)) = Timers.earlier (rt f).
Proof.
  destruct c; simpl.
  - unfold poll. simpl. repeat case_match; rewrite ?earlier_reject; reflexivity.
  - apply earlier_reject.
  - apply earlier_resolve.
Qed.

Lemma earlier_run_listener w l :
  Timers.earlier (rt (frame (run_listener w l))) = Timers.earlier (rt (frame w)).
Proof.
  destruct l; simpl.
  - unfold connect_listener. rewrite earlier_resolve. simpl.
    apply earlier_clear_if_set.
  - unfold _disconnected. destruct (_wallet (this w)); reflexivity.
Qed.

Lemma earlier_run_listeners ls : ∀ w,
  Timers.earlier (rt (frame (foldl run_listener w ls))) = Timers.earlier (rt (frame w)).
Proof.
  induction ls as [|l ls IH]; intros w; simpl; [reflexivity|].
  rewrite IH. apply earlier_run_listener.
Qed.

(** Only their own firing changes them. *)
Lemma deliver_earlier ev w :
  ev ≠ earlier_timer_fires →
  Timers.earlier (rt (frame (deliver ev w))) = Timers.earlier (rt (frame w)).
Proof.
  intros own. destruct ev; unfold deliver.
  - rewrite earlier_run_listeners. reflexivity.
  - apply earlier_run_listeners.
  - case_match; [|reflexivity]. simpl. unfold connect_rejected.
    rewrite earlier_reject. reflexivity.
  - case_match; [|reflexivity]. simpl. unfold disconnect_resolved.
    rewrite earlier_resolve. apply earlier_clear_if_set.
  - case_match; [|reflexivity]. simpl. unfold disconnect_rejected.
    case_decide; rewrite ?earlier_resolve, ?earlier_reject;
      apply earlier_clear_if_set.
  - case_match; simpl; [reflexivity| |].
    + unfold connect_hook. simpl. rewrite earlier_reject. reflexivity.
    + unfold disconnect_hook. simpl. rewrite earlier_resolve.
      apply earlier_clear_if_set.
  - reflexivity.
  - destruct (Timers.fire (rt (frame w))) as [[c rt1]|] eqn:fired; [|reflexivity].
    simpl. rewrite earlier_run_callback. simpl. apply (earlier_fire _ _ _ fired).
  - contradiction.
Qed.

Lemma deliver_none_earlier ev w :
  Timers.earlier (rt (frame w)) = [] →
  Timers.earlier (rt (frame (deliver ev w))) = [].
Proof.
  intros none.
  assert (ev = earlier_timer_fires ∨ ev ≠ earlier_timer_fires) as [->|own]
    by (destruct ev; auto; right; discriminate).
  - simpl. rewrite lapse_none by exact none. exact none.
  - rewrite deliver_earlier by exact own. exact none.
Qed.

Lemma settle_none_earlier evs : ∀ w,
  Timers.earlier (rt (frame w)) = [] →
  Timers.earlier (rt (frame (settle evs w))) = [].
Proof.
  induction evs as [|ev evs IH]; intros w none; simpl.
  - destruct (promise (frame w)); exact none.
  - destruct (promise (frame w)); try exact none.
    apply IH, deliver_none_earlier, none.
Qed.

Lemma executor_earlier provider built rt0 :
  Timers.earlier (rt (handshake_executor provider built rt0)) = found_armed rt0.
Proof. unfold handshake_executor. destruct (is_string provider); reflexivity. Qed.

Lemma cleanup_earlier f :
  Timers.earlier (rt (handshake_cleanup f)) = Timers.earlier (rt f).
Proof.
  unfold handshake_cleanup, clear_if_set. simpl. destruct (interval f); reflexivity.
Qed.

(** The race of a handshake in a world that has passed the guard. *)
Lemma race_handshaking w1 provider rt0 :
  let w2 := settle (future w1)
              (racing w1 provider (handshake_executor provider SolWallet.fresh rt0)) in
  handshaking (frame w2) ∧
  outside w2 = (set_connecting true (this w1), emitted w1,
                constructed w1 ++ [(provider, _network (this w1))], browser w1).
Proof.
  cbn zeta.
  destruct (settle_handshaking (future w1)
              (racing w1 provider (handshake_executor provider SolWallet.fresh rt0))
              (executor_handshaking provider rt0)) as [inv same].
  split; [exact inv|]. rewrite same. reflexivity.
Qed.

(** A handshake that the transport has won, as [connect] concludes it. *)
Lemma conclude_connected w2 :
  handshaking (frame w2) →
  promise (frame w2) = Normal tt →
  ∃ session,
    conclude w2 =
      (on_this (set_connecting false)
         (emitting emit_connect
            (on_this (set_wallet (Some session)) (on_frame handshake_cleanup w2))),
       Normal tt) ∧
    SolWallet.connected session = true ∧
    is_Some (SolWallet.publicKey session) ∧
    SolWallet.on_connect session = [] ∧
    SolWallet.on_disconnect session = [SolWallet._disconnected] ∧
    SolWallet.handleDisconnect session = SolWallet.library_handler ∧
    Timers.pending (rt (handshake_cleanup (frame w2))) = [].
Proof.
  intros (reacts & saved & hook & quiet & listens & timers & won) state.
  destruct (won state) as (live & known & silent & probes).
  assert (wallet (handshake_cleanup (frame w2))
            = SolWallet.with_handleDisconnect SolWallet.library_handler (wallet (frame w2)))
    as cleaned.
  { unfold handshake_cleanup, clear_if_set. rewrite saved.
    destruct (interval _); reflexivity. }
  eexists. unfold conclude. rewrite state, cleaned. split; [reflexivity|].
  unfold SolWallet.on_disconnect_add, SolWallet.with_on_disconnect,
    SolWallet.with_handleDisconnect.
  simpl. rewrite quiet. repeat split; try assumption.
  apply cleanup_clears_probes. intros tm inside.
  destruct (timers tm inside) as [[_ held]|[late _]]; [exact held|].
  rewrite (probes tm inside) in late. discriminate.
Qed.

(** A call of [connect] that returns has been through a race. *)
Lemma connect_returned env w :
  connected (this w) || connecting (this w) = false →
  snd (connect env w) = Normal tt →
  ∃ w2,
    connect env w = conclude w2 ∧
    handshaking (frame w2) ∧
    promise (frame w2) = Normal tt ∧
    this w2 = set_connecting true (this w) ∧
    emitted w2 = emitted w ∧
    length (constructed w2) = S (length (constructed w)) ∧
    (unarmed (rt (frame w)) → Timers.earlier (rt (frame w2)) = []).
Proof.
  intros free. rewrite (connect_staged env w free). unfold staged.
  pose proof (ready_keeps (page env) (on_this (set_connecting true) w)) as [kept _].
  destruct (ready (page env) (on_this (set_connecting true) w)) as [w1 c].
  unfold seen, outside in kept. simpl in kept.
  injection kept as this1 emitted1 constructed1 frame1.
  destruct c as [[]|e|]; try discriminate.
  destruct (imported env) as [[]|e|]; try discriminate.
  destruct (construction env) as [e|]; try discriminate.
  cbn zeta.
  match goal with |- context [settle (future w1) (racing w1 ?p (handshake_executor _ _ ?c))] =>
    destruct (race_handshaking w1 p c) as [inv same];
    cbn zeta in inv, same;
    pose proof (settle_none_earlier (future w1)
                  (racing w1 p (handshake_executor p SolWallet.fresh c))) as none;
    simpl in none; rewrite executor_earlier in none;
    generalize dependent (settle (future w1)
                            (racing w1 p (handshake_executor p SolWallet.fresh c)))
  end.
  intros w2 inv same none returned. unfold outside in same.
  injection same as this2 emitted2 constructed2 _.
  exists w2. split; [reflexivity|]. split; [exact inv|].
  split.
  { unfold conclude in returned.
    destruct (promise (frame w2)) as [[]|e|]; [reflexivity|discriminate..]. }
  rewrite this2, this1, emitted2, emitted1, constructed2, constructed1, length_app.
  simpl. repeat split; [lia|].
  intros calm. apply none, found_armed_none. rewrite frame1. exact calm.
Qed.

(** X9: whatever the environment does, a call of [connect] that passes the
    guard while no timer is armed and returns has connected: the adapter is
    connected and has a public key, it is not connecting, 'connect' is the
    one event the call has emitted, one transport has been built, and the
    race has left nothing behind: no timer is armed, and the session has no
    'connect' listener, [_disconnected] as its one listener of 'disconnect'
    and the library's [handleDisconnect]. *)
Theorem connect_returns_only_connected env w :
  connected (this w) || connecting (this w) = false →
  unarmed (rt (frame w)) →
  snd (connect env w) = Normal tt →
  let after := fst (connect env w) in
  connected (this after) = true ∧
  is_Some (publicKey (this after)) ∧
  connecting (this after) = false ∧
  emitted after = emitted w ++ [emit_connect] ∧
  length (constructed after) = S (length (constructed w)) ∧
  unarmed (rt (frame after)) ∧
  ∃ session,
    _wallet (this after) = Some session ∧
    SolWallet.on_connect session = [] ∧
    SolWallet.on_disconnect session = [SolWallet._disconnected] ∧
    SolWallet.handleDisconnect session = SolWallet.library_handler.
Proof.
  intros free calm returned.
  destruct (connect_returned env w free returned)
    as (w2 & run & inv & state & _ & same_emitted & one_more & none).
  destruct (conclude_connected w2 inv state)
    as (session & ended & live & known & silent & listens & restored & no_timer).
  cbn zeta. rewrite run, ended. unfold connected, publicKey, unarmed. simpl.
  rewrite same_emitted, cleanup_earlier. repeat split; try assumption.
  - apply none, calm.
  - exists session. repeat split; assumption.
Qed.

Lemma connect_returns_only_connected_witness :
  connected
    (this (fst (connect (Inputs.env None)
                  (initial Inputs.extension_config [transport_connects "key"]))))
    = true.
Proof.
  destruct (connect_returns_only_connected (Inputs.env None)
              (initial Inputs.extension_config [transport_connects "key"]))
    as [live _].
  - reflexivity.
  - split; reflexivity.
  - vm_compute. reflexivity.
  - exact live.
Defined.

(** X10: whatever the environment does, a call of [connect] that passes
    the guard emits one event when it ends, 'connect' when it returns and
    'error' with what it throws when it throws, and none while it waits;
    it builds at most one transport; while it waits the adapter is
    connecting, and when it throws the adapter is not, its session being in
    both cases the one it had. *)
Theorem connect_tells_its_outcome env w :
  connected (this w) || connecting (this w) = false →
  let r := connect env w in
  emitted (fst r) =
    emitted w ++ match snd r with
                 | Normal _ => [emit_connect]
                 | Throw e => [emit_error e]
                 | Awaiting => []
                 end ∧
  (constructed (fst r) = constructed w ∨
   ∃ provider, constructed (fst r) = constructed w ++ [(provider, _network (this w))]) ∧
  (snd r = Awaiting →
     connecting (this (fst r)) = true ∧ _wallet (this (fst r)) = _wallet (this w)) ∧
  (∀ e, snd r = Throw e →
     connecting (this (fst r)) = false ∧ _wallet (this (fst r)) = _wallet (this w)).
Proof.
  intros free. cbn zeta. rewrite (connect_staged env w free). unfold staged.
  pose proof (ready_keeps (page env) (on_this (set_connecting true) w)) as [kept _].
  destruct (ready (page env) (on_this (set_connecting true) w)) as [w1 c].
  unfold seen, outside in kept. simpl in kept.
  injection kept as this1 emitted1 constructed1 _.
  assert (∀ e, let r := failed w1 e in
    emitted (fst r) = emitted w ++ [emit_error e] ∧
    (constructed (fst r) = constructed w ∨
     ∃ provider, constructed (fst r) = constructed w ++ [(provider, _network (this w))]) ∧
    (snd r = Awaiting →
       connecting (this (fst r)) = true ∧ _wallet (this (fst r)) = _wallet (this w)) ∧
    (∀ e', snd r = Throw e' →
       connecting (this (fst r)) = false ∧ _wallet (this (fst r)) = _wallet (this w)))
    as thrown.
  { intros e. simpl. rewrite emitted1, constructed1, this1. repeat split; auto.
    discriminate. }
  assert (emitted w1 = emitted w ++ [] ∧
    (constructed w1 = constructed w ∨
     ∃ provider, constructed w1 = constructed w ++ [(provider, _network (this w))]) ∧
    (@Awaiting unit = Awaiting →
       connecting (this w1) = true ∧ _wallet (this w1) = _wallet (this w)) ∧
    (∀ e', @Awaiting unit = Throw e' →
       connecting (this w1) = false ∧ _wallet (this w1) = _wallet (this w)))
    as waits.
  { rewrite emitted1, constructed1, this1, app_nil_r. repeat split; auto; discriminate. }
  destruct c as [[]|e|]; [|apply thrown..|exact waits].
  destruct (imported env) as [[]|e|]; [|apply thrown|exact waits].
  destruct (construction env) as [e|]; [apply thrown|].
  cbn zeta.
  match goal with |- context [settle (future w1) (racing w1 ?p (handshake_executor _ _ ?c))] =>
    destruct (race_handshaking w1 p c) as [_ same];
    cbn zeta in same;
    generalize dependent (settle (future w1)
                            (racing w1 p (handshake_executor p SolWallet.fresh c)))
  end.
  intros w2 same. unfold outside in same.
  injection same as this2 emitted2 constructed2 _.
  unfold conclude.
  destruct (promise (frame w2)) as [[]|e|]; simpl;
    rewrite ?emitted2, ?emitted1, ?constructed2, ?constructed1, ?this2, ?this1,
      ?app_nil_r;
    repeat split; eauto; try discriminate.
Qed.

Lemma connect_tells_its_outcome_witness :
  emitted (fst (connect (Inputs.env None)
                  (initial Inputs.extension_config [timer_fires])))
    = [emit_error WalletTimeoutError].
Proof.
  destruct (connect_tells_its_outcome (Inputs.env None)
              (initial Inputs.extension_config [timer_fires]) eq_refl)
    as [told _].
  rewrite told. vm_compute. reflexivity.
Defined.

(** *** The deadline of the extension flow *)

Lemma timing_timed clock stale wallet saved :
  timed clock (timing clock stale wallet saved).
Proof. intros _. split; reflexivity. Qed.

Lemma timed_settled clock f : settled f → timed clock f.
Proof. intros done waiting. contradiction. Qed.

Lemma deliver_timed clock ev w :
  promise (frame w) = Awaiting →
  handshaking (frame w) →
  timed clock (frame w) →
  timed clock (frame (deliver ev w)) ∧
  (ev = timer_fires → settled (frame (deliver ev w))).
Proof.
  intros waiting (reacts & saved & hook & quiet & listens & timers & won) armed.
  destruct (armed waiting) as (handle & one).
  destruct w as [a em co br fu f]. simpl in *.
  destruct ev; unfold deliver; simpl;
    unfold has_reaction; rewrite ?quiet, ?reacts, ?hook; simpl;
    try (split; [exact armed|intros [=]]).
  - split; [|intros [=]].
    destruct listens as [->| ->]; simpl.
    + apply timed_settled, connect_listener_settled.
    + exact armed.
  - split; [|intros [=]]. apply timed_settled, connect_rejected_settled.
  - split; [|intros [=]]. apply timed_settled, connect_hook_settled.
  - unfold Timers.fire. rewrite one. simpl.
    split; [apply timed_settled|intros _]; apply reject_settled.
  - split; [|intros [=]].
    intros still. simpl. rewrite lapse_pending. exact (armed still).
Qed.

Lemma settle_timed clock evs : ∀ w,
  handshaking (frame w) →
  timed clock (frame w) →
  timed clock (frame (settle evs w)) ∧
  (timer_fires ∈ evs → settled (frame (settle evs w))).
Proof.
  induction evs as [|ev evs IH]; intros w inv armed.
  - simpl. destruct (promise (frame w)); (split; [exact armed|]);
      intros inside; inversion inside.
  - destruct (promise (frame w)) eqn:state.
    1,2: rewrite settle_settled by (unfold settled; congruence);
         (split; [exact armed|]); intros _; unfold settled; simpl; congruence.
    rewrite settle_waiting by exact state.
    destruct (deliver_timed clock ev w state inv armed) as [armed1 fired].
    destruct (deliver_handshaking ev w state inv) as [inv1 _].
    destruct (IH _ inv1 armed1) as [armed2 later].
    split; [exact armed2|].
    intros [<-|inside]%elem_of_cons; [|apply later, inside].
    rewrite settle_done by (apply fired; reflexivity). apply fired. reflexivity.
Qed.

(** X30: in the extension flow, a handshake that starts while no timer is
    armed has a deadline: whatever else happens, [connect] has ended once
    its timer has fired; and for as long as [connect] waits, that timer,
    due 10 s after the start, is the one timer armed. *)
Theorem extension_flow_has_a_deadline env w evs :
  connected (this w) || connecting (this w) = false →
  window_defined (page env) = true →
  document_defined (page env) = true →
  imported env = Normal tt →
  construction env = None →
  extension_flow (this w) (page env) →
  unarmed (rt (frame w)) →
  let r := connect env (set_future evs w) in
  let clock := Timers.now (rt (frame w)) in
  (timer_fires ∈ evs → snd r ≠ Awaiting) ∧
  (snd r = Awaiting →
     Timers.pending (rt (frame (fst r)))
       = [Timers.Timer 1 (clock + 10000) None Timers.connect_timeout] ∧
     Timers.earlier (rt (frame (fst r))) = []).
Proof.
  intros free has_window has_document loaded built flow calm. cbn zeta.
  rewrite (connect_extension env w) by assumption.
  match goal with |- context [settle evs ?w0] =>
    destruct (settle_timed (Timers.now (rt (frame w))) evs w0) as [armed fired];
      [rewrite <- (executor_extension (Some (provider_object true))) by reflexivity;
       apply executor_handshaking
      |apply timing_timed|];
    pose proof (settle_none_earlier evs w0 (found_armed_none _ calm)) as none;
    generalize dependent (settle evs w0)
  end.
  intros w2 armed fired none. unfold conclude.
  destruct (promise (frame w2)) as [[]|e|] eqn:state; simpl;
    (split; [try discriminate|intros [=]]).
  - intros inside. specialize (fired inside). unfold settled in fired. congruence.
  - destruct (armed state) as [_ one]. split; [exact one|exact none].
Qed.

Lemma extension_flow_has_a_deadline_witness :
  snd (connect (Inputs.env None)
         (set_future [popup_becomes None; transport_emits_disconnect; timer_fires]
            (initial Inputs.extension_config [])))
    ≠ Awaiting.
Proof.
  destruct (extension_flow_has_a_deadline (Inputs.env None)
              (initial Inputs.extension_config [])
              [popup_becomes None; transport_emits_disconnect; timer_fires]
              eq_refl eq_refl eq_refl eq_refl eq_refl (or_introl eq_refl)
              (conj eq_refl eq_refl))
    as [ends _].
  apply ends. do 2 apply list_elem_of_further. apply list_elem_of_here.
Defined.

(** *** After a lost handshake *)

Lemma later_outside evs : ∀ w,
  _wallet (this w) = None → outside (later evs w) = outside w.
Proof.
  induction evs as [|ev evs IH]; intros w idle; simpl; [reflexivity|].
  unfold later in *. simpl. rewrite IH.
  - apply deliver_outside, idle.
  - rewrite (outside_wallet _ _ (deliver_outside ev w idle)). exact idle.
Qed.

(** A [connect] that throws leaves the session of the adapter as it was. *)
Lemma connect_thrown_idle env w e :
  snd (connect env w) = Throw e →
  _wallet (this (fst (connect env w))) = _wallet (this w).
Proof.
  destruct (connected (this w) || connecting (this w)) eqn:free.
  { rewrite connect_while_busy by exact free. discriminate. }
  rewrite (connect_staged env w free). unfold staged.
  pose proof (ready_keeps (page env) (on_this (set_connecting true) w)) as [kept _].
  destruct (ready (page env) (on_this (set_connecting true) w)) as [w1 c].
  unfold seen, outside in kept. simpl in kept.
  injection kept as this1 _ _ _.
  assert (∀ x, snd (failed w1 x) = Throw e →
               _wallet (this (fst (failed w1 x))) = _wallet (this w)) as thrown
    by (intros x _; simpl; rewrite this1; reflexivity).
  destruct c as [[]|x|]; [|apply thrown..|discriminate].
  destruct (imported env) as [[]|x|]; [|apply thrown|discriminate].
  destruct (construction env) as [x|]; [apply thrown|].
  cbn zeta.
  match goal with |- context [settle (future w1) (racing w1 ?p (handshake_executor _ _ ?c))] =>
    destruct (race_handshaking w1 p c) as [_ same];
    cbn zeta in same;
    generalize dependent (settle (future w1)
                            (racing w1 p (handshake_executor p SolWallet.fresh c)))
  end.
  intros w2 same. unfold outside in same.
  injection same as this2 _ _ _.
  unfold conclude.
  destruct (promise (frame w2)) as [[]|x|]; simpl; try discriminate.
  intros _. rewrite this2, this1. reflexivity.
Qed.

(** X11: on an adapter whose calls are made one after the other and that
    has no session, what the environment does after a [connect] that has
    thrown changes nothing of the adapter: whatever the transport of the
    lost handshake and the timers deliver later, the 'connect' that a
    listener left on the transport still hears included, the fields of the
    adapter, the events it has emitted, the transports built and the calls
    on [window] stay as the call left them, and the adapter is not
    connected. *)
Theorem lost_connect_is_not_adopted env w e evs :
  sequential w →
  _wallet (this w) = None →
  snd (connect env w) = Throw e →
  let left := fst (connect env w) in
  outside (later evs left) = outside left ∧
  connected (this (later evs left)) = false.
Proof.
  intros _ idle thrown. cbn zeta.
  pose proof (connect_thrown_idle env w e thrown) as still. rewrite idle in still.
  pose proof (later_outside evs _ still) as same.
  split; [exact same|].
  unfold connected. rewrite (outside_wallet _ _ same), still. reflexivity.
Qed.

(** The extension answers after the timeout. *)
Lemma lost_connect_is_not_adopted_witness :
  let left := fst (connect (Inputs.env None)
                     (initial Inputs.extension_config [timer_fires])) in
  SolWallet.connected (wallet (frame (later [transport_connects "key"] left))) = true ∧
  connected (this (later [transport_connects "key"] left)) = false.
Proof.
  cbn zeta. split; [reflexivity|].
  destruct (lost_connect_is_not_adopted (Inputs.env None)
              (initial Inputs.extension_config [timer_fires])
              WalletTimeoutError [transport_connects "key"]
              (sequential_initial _ _) eq_refl eq_refl)
    as [_ idle].
  exact idle.
Defined.

End Handshakes.

(** ** Sessions: [disconnect], [_disconnected] and the signing calls *)

Module Sessions.

Import SolletWalletAdapter Race AdapterFacts Handshakes.

(** *** After a teardown *)

Lemma disconnect_returned_idle w :
  snd (disconnect w) = Normal tt → _wallet (this (fst (disconnect w))) = None.
Proof.
  destruct (_wallet (this w)) as [session|] eqn:live.
  - rewrite (disconnect_live w session live). cbn zeta.
    match goal with |- context [settle ?evs ?w0] =>
      assert (outside (settle evs w0) = outside w0) as same
        by (apply settle_outside; reflexivity);
      generalize dependent (settle evs w0)
    end.
    intros w1 same. apply outside_wallet in same.
    destruct (promise (frame w1)) as [[]|x|]; simpl; try discriminate;
      intros _; exact same.
  - intros _. unfold disconnect, bind, gets. rewrite live. simpl. exact live.
Qed.

(** X12: on an adapter whose calls are made one after the other, what the
    environment does after a [disconnect] that has returned changes
    nothing of the adapter: whatever the transport and the timers deliver
    later, a 'disconnect' of the transport or a late answer to the call
    included, the fields of the adapter, the events it has emitted, the
    transports built and the calls on [window] stay as the call left them,
    and the adapter is not connected. *)
Theorem ended_disconnect_hears_nothing w evs :
  sequential w →
  snd (disconnect w) = Normal tt →
  let left := fst (disconnect w) in
  outside (later evs left) = outside left ∧
  connected (this (later evs left)) = false.
Proof.
  intros _ returned. cbn zeta.
  pose proof (disconnect_returned_idle w returned) as idle.
  pose proof (later_outside evs _ idle) as same.
  split; [exact same|].
  unfold connected. rewrite (outside_wallet _ _ same), idle. reflexivity.
Qed.

(** The grace timer ends the teardown; the transport answers afterwards. *)
Lemma ended_disconnect_hears_nothing_witness :
  let left := fst (disconnect (set_future [timer_fires] Inputs.connected_world)) in
  emitted (later [disconnect_rejects (Thrown (Some "late"));
                  transport_emits_disconnect] left)
    = emitted left.
Proof.
  cbn zeta.
  assert (sequential Inputs.connected_world) as used.
  { change Inputs.connected_world
      with (fst (Inputs.connected_world, @Normal unit tt)).
    rewrite <- connected_world_reached.
    apply sequential_connect; [apply sequential_initial|].
    rewrite connected_world_reached. discriminate. }
  destruct (ended_disconnect_hears_nothing
              (set_future [timer_fires] Inputs.connected_world)
              [disconnect_rejects (Thrown (Some "late")); transport_emits_disconnect]
              (sequential_future _ _ used) eq_refl) as [same _].
  exact (f_equal (λ o, snd (fst (fst o))) same).
Defined.

(** *** [connect] and then [disconnect] *)

(** X13: on an adapter without session that is not connecting, a
    [connect] that returns followed by a [disconnect] that returns leaves
    the fields of the adapter as they were; in between the adapter has
    emitted 'connect', then at most one 'error' carrying a
    [WalletDisconnectionError], then 'disconnect'; and the transport has
    the library's [handleDisconnect] again. *)
Theorem connect_then_disconnect_restores env w :
  _wallet (this w) = None →
  _connecting (this w) = false →
  snd (connect env w) = Normal tt →
  snd (disconnect (fst (connect env w))) = Normal tt →
  let after := fst (disconnect (fst (connect env w))) in
  this after = this w ∧
  (∃ report,
     emitted after = emitted w ++ [emit_connect] ++ report ++ [emit_disconnect] ∧
     (report = [] ∨
      ∃ e, report = [emit_error (WalletDisconnectionError (message e) e)])) ∧
  SolWallet.handleDisconnect (wallet (frame after)) = SolWallet.library_handler.
Proof.
  intros idle quiet returned.
  assert (connected (this w) || connecting (this w) = false) as free
    by (unfold connected, connecting; rewrite idle, quiet; reflexivity).
  destruct (connect_returned env w free returned)
    as (w2 & run & inv & state & same_this & same_emitted & _).
  destruct (conclude_connected w2 inv state)
    as (session & ended & _ & _ & _ & _ & restored & _).
  rewrite run, ended. cbn [fst].
  match goal with |- context [disconnect ?w3] =>
    rewrite (disconnect_live w3 session eq_refl) end.
  cbn zeta.
  match goal with |- context [settle ?evs ?w0] =>
    assert (outside (settle evs w0) = outside w0) as same
      by (apply settle_outside; reflexivity);
    pose proof (narrows_settle evs w0) as (saved & _ & _);
    generalize dependent (settle evs w0)
  end.
  intros w4 same saved. simpl in saved.
  unfold outside in same. simpl in same.
  injection same as this4 emitted4 _ _.
  assert (set_wallet None (set_connecting false (set_wallet (Some session) (this w2)))
            = this w) as back.
  { rewrite same_this. destruct (this w) as [p n c s]. simpl in *. subst. reflexivity. }
  destruct (promise (frame w4)) as [[]|e|]; try discriminate; intros _; simpl.
  - rewrite this4, emitted4, same_emitted, saved. split; [exact back|].
    split; [|exact restored]. exists []. split; [|left; reflexivity].
    simpl. rewrite <- app_assoc. reflexivity.
  - rewrite this4, emitted4, same_emitted, saved. split; [exact back|].
    split; [|exact restored].
    exists [emit_error (WalletDisconnectionError (message e) e)].
    split; [|right; eauto]. simpl. rewrite <- !app_assoc. reflexivity.
Qed.

Lemma connect_then_disconnect_restores_witness :
  this (fst (disconnect
               (fst (connect (Inputs.env None)
                       (initial Inputs.popup_config
                          [transport_connects "key"; timer_fires])))))
    = constructor Inputs.popup_config.
Proof.
  destruct (connect_then_disconnect_restores (Inputs.env None)
              (initial Inputs.popup_config [transport_connects "key"; timer_fires]))
    as [back _].
  - reflexivity.
  - reflexivity.
  - vm_compute. reflexivity.
  - vm_compute. reflexivity.
  - exact back.
Defined.

(** *** What holds throughout a teardown *)

Lemma executor_tearing session rt0 :
  SolWallet.on_connect session = [] →
  SolWallet.on_disconnect session = [SolWallet._disconnected] →
  tearing (SolWallet.handleDisconnect session)
    (teardown_executor (SolWallet.off_disconnect SolWallet._disconnected session) rt0).
Proof.
  intros silent listens. unfold tearing, teardown_executor, SolWallet.off_disconnect.
  simpl. rewrite silent, listens. simpl. repeat split. eauto.
Qed.

Lemma deliver_tearing saved ev w :
  promise (frame w) = Awaiting →
  tearing saved (frame w) →
  tearing saved (frame (deliver ev w)).
Proof.
  intros waiting (reacts & kept & hook & silent & quiet & armed).
  rewrite waiting in armed. destruct armed as (id & due & handle & one).
  destruct w as [a em co br fu f]. simpl in *.
  assert (∀ x : nat, (x =? x) = true) as same by apply Nat.eqb_refl.
  destruct ev; unfold deliver; simpl;
    unfold has_reaction; rewrite ?silent, ?quiet, ?reacts, ?hook; simpl;
    unfold disconnect_resolved, disconnect_rejected, disconnect_hook, resolve,
      reject, clear_if_set, Timers.fire, tearing;
    rewrite ?handle; simpl; try case_decide; simpl;
    rewrite ?waiting; simpl; rewrite ?one; simpl; rewrite ?same; simpl;
    unfold grace_over, resolve; simpl; rewrite ?waiting; simpl;
    rewrite ?lapse_pending;
    eauto 10.
Qed.

Lemma settle_tearing saved evs : ∀ w,
  tearing saved (frame w) → tearing saved (frame (settle evs w)).
Proof.
  induction evs as [|ev evs IH]; intros w inv; simpl.
  - destruct (promise (frame w)); exact inv.
  - destruct (promise (frame w)) eqn:state; try exact inv.
    apply IH, deliver_tearing; assumption.
Qed.

(** X14: a [disconnect] of a session as [connect] leaves one, called while
    no timer is armed, has left no timer armed once it has returned,
    whichever way the teardown ended: the grace timer has fired or has been
    cleared; the transport has the [handleDisconnect] it had before the
    call, and no listener of the adapter is left on it. *)
Theorem disconnect_leaves_no_timer w session :
  _wallet (this w) = Some session →
  SolWallet.on_connect session = [] →
  SolWallet.on_disconnect session = [SolWallet._disconnected] →
  unarmed (rt (frame w)) →
  snd (disconnect w) = Normal tt →
  let left := frame (fst (disconnect w)) in
  unarmed (rt left) ∧
  SolWallet.handleDisconnect (wallet left) = SolWallet.handleDisconnect session ∧
  SolWallet.on_connect (wallet left) = [] ∧
  SolWallet.on_disconnect (wallet left) = [].
Proof.
  intros live silent listens calm.
  rewrite (disconnect_live w session live). cbn zeta.
  match goal with |- context [settle ?evs ?w0] =>
    pose proof (settle_tearing (SolWallet.handleDisconnect session) evs w0
                  (executor_tearing session _ silent listens))
      as (_ & kept & _ & silent' & quiet & armed);
    pose proof (settle_none_earlier evs w0 (found_armed_none _ calm)) as none;
    generalize dependent (settle evs w0)
  end.
  intros w1 kept silent' quiet armed none.
  unfold unarmed.
  destruct (promise (frame w1)) as [[]|e|]; try discriminate; intros _; simpl;
    rewrite kept; repeat split; assumption.
Qed.

Lemma disconnect_leaves_no_timer_witness :
  unarmed
    (rt (frame (fst (disconnect (set_future [disconnect_resolves]
                                   Inputs.connected_world))))).
Proof.
  destruct (_wallet (this Inputs.connected_world)) as [session|] eqn:live;
    [|vm_compute in live; discriminate live].
  assert (SolWallet.on_connect session = [] ∧
          SolWallet.on_disconnect session = [SolWallet._disconnected]) as [silent listens]
    by (vm_compute in live; injection live as <-; split; reflexivity).
  destruct (disconnect_leaves_no_timer
              (set_future [disconnect_resolves] Inputs.connected_world) session
              live silent listens) as [none _].
  - split; reflexivity.
  - vm_compute. reflexivity.
  - exact none.
Defined.

(** *** The transport disconnects unasked *)

(** X15: [_disconnected], the listener of the transport's 'disconnect',
    does nothing without a session; with one it drops the session, so that
    the adapter is no longer connected and has no public key, and emits
    'error' with [WalletDisconnectedError] and then 'disconnect'; run a
    second time it does nothing more; and a [disconnect] called after it
    touches no transport and only emits 'disconnect' once more. *)
Theorem unexpected_disconnect_is_reported_once w :
  (_wallet (this w) = None → _disconnected w = w) ∧
  (is_Some (_wallet (this w)) →
     emitted (_disconnected w)
       = emitted w ++ [emit_error WalletDisconnectedError; emit_disconnect] ∧
     connected (this (_disconnected w)) = false ∧
     publicKey (this (_disconnected w)) = None ∧
     connecting (this (_disconnected w)) = connecting (this w)) ∧
  _disconnected (_disconnected w) = _disconnected w ∧
  disconnect (_disconnected w)
    = (emitting emit_disconnect (_disconnected w), Normal tt).
Proof.
  unfold _disconnected.
  destruct (_wallet (this w)) as [session|] eqn:live.
  - split; [discriminate|]. split.
    + intros _. simpl. rewrite <- app_assoc. repeat split.
    + split; [reflexivity|].
      unfold disconnect, bind, gets. reflexivity.
  - split; [reflexivity|]. split.
    + intros [session is_some]. discriminate.
    + rewrite live. split; [reflexivity|].
      unfold disconnect, bind, gets. rewrite live. reflexivity.
Qed.

(** *** Signing *)

Section SigningFacts.

Context {Transaction Message Signed Bytes : Type}.
Variable wallet_signTransaction : Transaction → completion (option Transaction).
Variable wallet_signAllTransactions :
  list Transaction → completion (option (list Transaction)).
Variable wallet_sign : Message → completion Signed.
Variable signature_bytes : Signed → error + Bytes.

(** X16: without a session each of [signTransaction],
    [signAllTransactions] and [signMessage] emits 'error' with
    [WalletNotConnectedError] and throws it, whatever the transport would
    have answered; nothing else changes. *)
Theorem signing_needs_a_session (w : World) (transaction : Transaction)
    (transactions : list Transaction) (data : Message) :
  _wallet (this w) = None →
  let refused := emitting (emit_error WalletNotConnectedError) w in
  signTransaction wallet_signTransaction transaction w
    = (refused, Throw WalletNotConnectedError) ∧
  signAllTransactions wallet_signAllTransactions transactions w
    = (refused, Throw WalletNotConnectedError) ∧
  signMessage wallet_sign signature_bytes data w
    = (refused, Throw WalletNotConnectedError).
Proof.
  intros idle.
  unfold signTransaction, signAllTransactions, signMessage, try_catch, bind, gets,
    emit, modify, throw.
  rewrite idle. repeat split.
Qed.

(** X17: with a session, a failure of the transport's signing call is
    thrown as a [WalletSignTransactionError], or for [signMessage] as a
    [WalletSignMessageError], carrying the message of the failure and the
    failure itself; so is a failure to read the bytes of the signature that
    the transport answered; the wrapped error is emitted once as 'error',
    and nothing else changes.  A signature that can be read is returned as
    its bytes, with no event. *)
Theorem signing_failure_is_wrapped (w : World) (session : SolWallet.t)
    (transaction : Transaction) (transactions : list Transaction) (data : Message)
    (inner : error) :
  _wallet (this w) = Some session →
  let fails {A} (r : World * completion A) (e : error) :=
    r = (emitting (emit_error e) w, Throw e) in
  (wallet_signTransaction transaction = Throw inner →
   fails (signTransaction wallet_signTransaction transaction w)
     (WalletSignTransactionError (message inner) inner)) ∧
  (wallet_signAllTransactions transactions = Throw inner →
   fails (signAllTransactions wallet_signAllTransactions transactions w)
     (WalletSignTransactionError (message inner) inner)) ∧
  (wallet_sign data = Throw inner →
   fails (signMessage wallet_sign signature_bytes data w)
     (WalletSignMessageError (message inner) inner)) ∧
  (∀ signed, wallet_sign data = Normal signed →
   signature_bytes signed = inl inner →
   fails (signMessage wallet_sign signature_bytes data w)
     (WalletSignMessageError (message inner) inner)) ∧
  (∀ signed signature, wallet_sign data = Normal signed →
   signature_bytes signed = inr signature →
   signMessage wallet_sign signature_bytes data w = (w, Normal signature)).
Proof.
  intros live. cbn zeta.
  unfold signTransaction, signAllTransactions, signMessage, try_catch, bind, gets,
    emit, modify, throw, await, ret.
  rewrite live.
  repeat split; intros;
    repeat match goal with H : _ = _ |- _ => rewrite H end; reflexivity.
Qed.

End SigningFacts.

Lemma signing_needs_a_session_witness :
  signMessage (λ _ : string, Normal "signed") (λ s : string, inr s) "hello"
      (initial Inputs.popup_config [])
    = (emitting (emit_error WalletNotConnectedError) (initial Inputs.popup_config []),
       Throw WalletNotConnectedError).
Proof.
  destruct (signing_needs_a_session
              (λ _ : string, Normal None) (λ _ : list string, Normal None)
              (λ _ : string, Normal "signed") (λ s : string, @inr error string s)
              (initial Inputs.popup_config []) "transfer" ["a"] "hello" eq_refl)
    as (_ & _ & refused).
  exact refused.
Defined.

Lemma signing_failure_is_wrapped_witness :
  snd (signTransaction (λ _ : string, Throw (Thrown (Some "declined"))) "transfer"
         Inputs.connected_world)
    = Throw (WalletSignTransactionError (Some "declined") (Thrown (Some "declined"))).
Proof.
  destruct (_wallet (this Inputs.connected_world)) as [session|] eqn:live;
    [|vm_compute in live; discriminate live].
  destruct (signing_failure_is_wrapped
              (λ _ : string, Throw (Thrown (Some "declined")))
              (λ _ : list string, Normal None)
              (λ _ : string, Normal "signed") (λ s : string, @inr error string s)
              Inputs.connected_world session "transfer" ["a"] "hello"
              (Thrown (Some "declined")) live) as [wrapped _].
  rewrite (wrapped eq_refl). reflexivity.
Defined.

End Sessions.

(** ** The registry of wallets *)

Module Registry.

Import WalletProvider.

Lemma walletsByName_snoc wallets w :
  walletsByName (wallets ++ [w]) = <[Wallet.name w := w]> (walletsByName wallets).
Proof. unfold walletsByName. rewrite foldl_app. reflexivity. Qed.

(** A name that no later wallet has keeps its wallet. *)
Lemma walletsByName_unshadowed before w after :
  (∀ w', w' ∈ after → Wallet.name w' ≠ Wallet.name w) →
  walletsByName (before ++ w :: after) !! Wallet.name w = Some w.
Proof.
  induction after as [|x after IH] using rev_ind; intros later.
  - rewrite walletsByName_snoc. apply lookup_insert_eq.
  - replace (before ++ w :: after ++ [x]) with ((before ++ w :: after) ++ [x])
      by (rewrite <- app_assoc; reflexivity).
    rewrite walletsByName_snoc, lookup_insert_ne.
    + apply IH. intros w' inside. apply later, elem_of_app. left. exact inside.
    + apply later, elem_of_app. right. apply list_elem_of_here.
Qed.

(** X19: what [walletsByName] holds under the name of a wallet of the list
    is the last wallet of the list that has this name: a later wallet
    replaces an earlier one of the same name. *)
Theorem walletsByName_last_wins wallets w :
  w ∈ wallets →
  walletsByName wallets !! Wallet.name w
    = last (filter (λ w', Wallet.name w' = Wallet.name w) wallets).
Proof.
  intros inside. remember (Wallet.name w) as n eqn:named.
  revert w inside named.
  induction wallets as [|x wallets IH] using rev_ind; intros w inside named.
  - inversion inside.
  - rewrite walletsByName_snoc, filter_app.
    destruct (decide (Wallet.name x = n)) as [same|other].
    + rewrite filter_cons_True by exact same. rewrite filter_nil, last_snoc.
      rewrite <- same. apply lookup_insert_eq.
    + rewrite filter_cons_False by exact other. rewrite filter_nil, app_nil_r.
      rewrite lookup_insert_ne by exact other.
      apply elem_of_app in inside as [earlier|here].
      * apply (IH w earlier named).
      * apply list_elem_of_singleton in here as ->. congruence.
Qed.

Lemma walletsByName_last_wins_witness :
  walletsByName [Wallet.Make "Sollet" "https://old.example"; Inputs.sollet]
    !! Wallet.name Inputs.sollet
  = Some Inputs.sollet.
Proof.
  rewrite (walletsByName_last_wins
             [Wallet.Make "Sollet" "https://old.example"; Inputs.sollet]
             Inputs.sollet).
  - vm_compute. reflexivity.
  - apply list_elem_of_further, list_elem_of_here.
Defined.

End Registry.

(** ** The callbacks and effects of the orchestrator *)

Module Calls.

Import WalletProvider Registry.

(** *** The effect of a change of name and the registry *)

(** X20: for a name that is not empty, the effect of a change of name
    resets the six fields, then calls the factory of the last wallet of
    the list that has the name, once, and stores that wallet, the adapter
    the factory returned and the readiness of that adapter. *)
Theorem name_effect_selects_last_registered wallets live fresh n before w after s :
  n ≠ EmptyString →
  wallets = before ++ w :: after →
  Wallet.name w = n →
  (∀ w', w' ∈ after → Wallet.name w' ≠ n) →
  let t := trace (name_effect wallets live fresh (Some n)) in
  t = trace reset ++ [wallet_adapter n; setWallet (Some w); setAdapter (Some fresh);
                      setReady (adapter_ready (live fresh))] ∧
  wallet (run s t) = Some w ∧
  adapter (run s t) = Some fresh ∧
  ready (run s t) = adapter_ready (live fresh).
Proof.
  intros nonempty -> <- later. cbn zeta.
  unfold name_effect.
  apply String.eqb_neq in nonempty. rewrite nonempty.
  rewrite (walletsByName_unshadowed before w after later).
  repeat split.
Qed.

Lemma name_effect_selects_last_registered_witness :
  wallet (run (initial (Some "Sollet"))
            (trace (name_effect
                      [Wallet.Make "Sollet" "https://old.example"; Inputs.sollet]
                      (λ _, View true false None) 1 (Some "Sollet"))))
    = Some Inputs.sollet.
Proof.
  assert ("Sollet" ≠ EmptyString) as nonempty by discriminate.
  destruct (name_effect_selects_last_registered
              [Wallet.Make "Sollet" "https://old.example"; Inputs.sollet]
              (λ _, View true false None) 1 "Sollet"
              [Wallet.Make "Sollet" "https://old.example"] Inputs.sollet []
              (initial (Some "Sollet")) nonempty eq_refl eq_refl)
    as (_ & chosen & _).
  - intros w' inside. inversion inside.
  - exact chosen.
Defined.

(** X21: for no name and for the empty name the effect of a change of
    name looks nothing up and calls no factory: it resets the six fields
    and stores no wallet, no adapter and [ready] false, leaving the name as
    it is. *)
Theorem name_effect_without_wallet wallets live fresh name s :
  name = None ∨ name = Some EmptyString →
  let t := trace (name_effect wallets live fresh name) in
  t = trace reset ++ [setWallet None; setAdapter None; setReady false] ∧
  (∀ n, wallet_adapter n ∉ t) ∧
  run s t = State_ (WalletProvider.name s) None None false false false false false None.
Proof.
  intros [-> | ->]; cbn zeta; unfold name_effect; simpl;
    (split; [reflexivity|]); (split; [|reflexivity]);
    intros n inside; cbn in inside;
    repeat (apply elem_of_cons in inside as [?|inside]; [discriminate|]);
    inversion inside.
Qed.

Lemma name_effect_without_wallet_witness :
  adapter (run Inputs.selected
             (trace (name_effect [Inputs.sollet] (λ _, View true false None) 2 None)))
    = None.
Proof.
  destruct (name_effect_without_wallet [Inputs.sollet] (λ _, View true false None) 2
              None Inputs.selected) as (_ & _ & final).
  - left. reflexivity.
  - exact (f_equal adapter final).
Defined.

(** *** [select] *)

(** X22: [select] does nothing when the name is the selected one.
    Otherwise it sets the name, after having told the adapter of the
    render, if there is one, to disconnect; when that call fails or has not
    settled the name is not set, nothing is changed, and the failure is
    that of [select].  When [select] returns, the name is the selected
    one. *)
Theorem select_disconnects_before_renaming s disconnected selected :
  let r := select s disconnected selected [] in
  (name s = selected → r = ([], Normal tt)) ∧
  (name s ≠ selected →
     (adapter s = None → r = ([setName selected], Normal tt)) ∧
     (∀ a, adapter s = Some a →
        (disconnected = Normal tt →
           r = ([adapter_disconnect a; setName selected], Normal tt)) ∧
        (disconnected ≠ Normal tt →
           r = ([adapter_disconnect a], disconnected) ∧ run s (fst r) = s))) ∧
  (snd r = Normal tt → name (run s (fst r)) = selected).
Proof.
  cbn zeta. unfold select.
  destruct (decide (name s = selected)) as [same|other].
  - split; [reflexivity|]. split; [contradiction|]. intros _. exact same.
  - split; [contradiction|].
    destruct (adapter s) as [a|]; simpl.
    + destruct disconnected as [[]|e|]; simpl.
      * split; [|reflexivity]. intros _. split; [discriminate|].
        intros a' [= <-]. split; [reflexivity|contradiction].
      * split; [|discriminate]. intros _. split; [discriminate|].
        intros a' [= <-]. split; [discriminate|]. intros _. split; reflexivity.
      * split; [|discriminate]. intros _. split; [discriminate|].
        intros a' [= <-]. split; [discriminate|]. intros _. split; reflexivity.
    + split; [|reflexivity]. intros _. split; [reflexivity|]. intros a. discriminate.
Qed.

(** *** [connect] *)

(** X23: with nothing in progress, [connect] without wallet or adapter
    hands [WalletNotSelectedError] to the error sink and throws it.  With
    both, and [ready], it raises [connecting], calls the adapter, and
    lowers [connecting] when that call has settled, so that the flag is
    down after a call that ends; it ends as the adapter's call does, and
    does not hand the adapter's failure to the error sink itself. *)
Theorem provider_connect_delegates s result :
  connecting s || disconnecting s || connected s = false →
  (wallet s = None ∨ adapter s = None →
     connect s result [] = ([onError WalletNotSelectedError], Throw WalletNotSelectedError)) ∧
  (∀ chosen a, wallet s = Some chosen → adapter s = Some a → ready s = true →
     connect s result []
       = (setConnecting true :: adapter_connect a ::
            match result with Awaiting => [] | _ => [setConnecting false] end,
          result) ∧
     (∀ e, onError e ∉ trace (connect s result)) ∧
     (result ≠ Awaiting → connecting (run s (trace (connect s result))) = false)).
Proof.
  intros free. unfold trace, connect. rewrite free. split.
  - intros [none|none]; rewrite none; [reflexivity|].
    destruct (wallet s); reflexivity.
  - intros chosen a -> -> ->.
    destruct result as [[]|e|]; simpl; repeat split; try contradiction;
      intros e' inside;
      repeat (apply elem_of_cons in inside as [?|inside]; [discriminate|]);
      inversion inside.
Qed.

Lemma provider_connect_delegates_witness :
  connect Inputs.selected (Throw WalletTimeoutError) []
    = ([setConnecting true; adapter_connect 1; setConnecting false],
       Throw WalletTimeoutError).
Proof.
  destruct (provider_connect_delegates Inputs.selected (Throw WalletTimeoutError)
              eq_refl) as [_ delegates].
  destruct (delegates Inputs.sollet 1 eq_refl eq_refl eq_refl) as [run _].
  exact run.
Defined.

(** *** [disconnect] *)

(** X24: a [disconnect] called while [disconnecting] is false, when it
    returns, has cleared the name and lowered [disconnecting].  With an
    adapter and a name, it tells the adapter to disconnect twice: once
    itself and, after lowering the flag, once more through [select]; when
    the second call settles well the name is cleared and [disconnect] ends
    as the first call did, a failure of the first included; when the
    second fails, that failure is the one thrown and the name stays. *)
Theorem provider_disconnect_forgets_the_wallet s disconnected again :
  disconnecting s = false →
  let r := disconnect s disconnected again [] in
  (snd r = Normal tt →
     name (run s (fst r)) = None ∧ disconnecting (run s (fst r)) = false) ∧
  (∀ a n, adapter s = Some a → name s = Some n → disconnected ≠ Awaiting →
     fst r = [setDisconnecting true; adapter_disconnect a; setDisconnecting false;
              adapter_disconnect a]
             ++ match again with Normal _ => [setName None] | _ => [] end ∧
     snd r = match again with Normal _ => disconnected | _ => again end ∧
     (again ≠ Normal tt → name (run s (fst r)) = Some n)).
Proof.
  intros free. cbn zeta. unfold disconnect, select. rewrite free. split.
  - destruct (adapter s) as [a|].
    + destruct (decide (name s = None)) as [none|some];
        destruct disconnected as [[]|e|], again as [[]|e'|]; simpl;
        intros returned; try discriminate returned; auto.
    + destruct (decide (name s = None)) as [none|some]; simpl; auto.
  - intros a n -> named ended. rewrite named.
    destruct (decide (Some n = None)) as [impossible|_]; [discriminate|].
    destruct disconnected as [[]|e|], again as [[]|e'|]; simpl;
      try contradiction; repeat split; auto; try contradiction.
Qed.

Lemma provider_disconnect_forgets_the_wallet_witness :
  fst (disconnect Inputs.selected (Throw WalletTimeoutError) (Normal tt) [])
    = [setDisconnecting true; adapter_disconnect 1; setDisconnecting false;
       adapter_disconnect 1; setName None] ∧
  snd (disconnect Inputs.selected (Throw WalletTimeoutError) (Normal tt) [])
    = Throw WalletTimeoutError.
Proof.
  destruct (provider_disconnect_forgets_the_wallet Inputs.selected
              (Throw WalletTimeoutError) (Normal tt) eq_refl) as [_ twice].
  destruct (twice 1 "Sollet" eq_refl eq_refl) as (told & thrown & _);
    [discriminate|].
  split; [exact told|exact thrown].
Defined.

(** *** The capability calls *)

(** X25: [sendTransaction] without an adapter hands
    [WalletNotSelectedError] to the error sink and throws it; with an
    adapter and [connected] it calls the adapter and ends as that call
    does.  The error sink is only handed what [sendTransaction] refuses
    itself, [WalletNotSelectedError] or [WalletNotConnectedError], which is
    then all the call does: a failure of the adapter is thrown on without
    a call of the sink. *)
Theorem sendTransaction_reports_its_own_refusals {Signature : Type}
    (s : State) (sent : completion Signature) :
  (adapter s = None →
     sendTransaction s sent []
       = ([onError WalletNotSelectedError], Throw WalletNotSelectedError)) ∧
  (∀ a, adapter s = Some a → connected s = true →
     sendTransaction s sent [] = ([adapter_sendTransaction a], sent)) ∧
  (∀ e, onError e ∈ trace (sendTransaction s sent) →
     sendTransaction s sent [] = ([onError e], Throw e) ∧
     (e = WalletNotSelectedError ∨ e = WalletNotConnectedError)).
Proof.
  unfold trace, sendTransaction.
  destruct (adapter s) as [a|], (connected s); simpl;
    (split; [try discriminate; reflexivity|]);
    (split; [intros a'; try discriminate; intros [= <-]; try discriminate; reflexivity|]);
    intros e inside.
  - destruct sent; simpl in inside;
      apply list_elem_of_singleton in inside; discriminate.
  - apply list_elem_of_singleton in inside as [= <-]. auto.
  - apply list_elem_of_singleton in inside as [= <-]. auto.
  - apply list_elem_of_singleton in inside as [= <-]. auto.
Qed.

Section Wrappers.

Context {Transaction Message Signed : Type}.
Variable adapter_signTransaction :
  AdapterRef → option (Transaction → M (list action) Transaction).
Variable adapter_signAllTransactions :
  AdapterRef → option (list Transaction → M (list action) (list Transaction)).
Variable adapter_signMessage : AdapterRef → option (Message → M (list action) Signed).

(** X26: each of [signTransaction], [signAllTransactions] and
    [signMessage] is [undefined] exactly when there is no adapter or the
    adapter has no such method; called while [connected] is false it hands
    [WalletNotConnectedError] to the error sink and throws it without
    calling the adapter; called while [connected] is true it is the
    adapter's method. *)
Theorem signing_wrappers_guard_the_adapter (s : State) :
  let guards {I O} (wrapper : option (I → M (list action) O))
      (method : AdapterRef → option (I → M (list action) O)) :=
    (wrapper = None ↔ ∀ a, adapter s = Some a → method a = None) ∧
    (∀ wrapped input, wrapper = Some wrapped → connected s = false →
       wrapped input []
         = ([onError WalletNotConnectedError], Throw WalletNotConnectedError)) ∧
    (∀ wrapped a sign input, wrapper = Some wrapped → connected s = true →
       adapter s = Some a → method a = Some sign →
       wrapped input = sign input) in
  guards (signTransaction s adapter_signTransaction) adapter_signTransaction ∧
  guards (signAllTransactions s adapter_signAllTransactions)
    adapter_signAllTransactions ∧
  guards (signMessage s adapter_signMessage) adapter_signMessage.
Proof.
  cbn zeta. unfold signTransaction, signAllTransactions, signMessage.
  destruct (adapter s) as [a|].
  - destruct (adapter_signTransaction a) as [f1|] eqn:has1,
      (adapter_signAllTransactions a) as [f2|] eqn:has2,
      (adapter_signMessage a) as [f3|] eqn:has3;
      repeat split;
      try discriminate;
      try (intros none; specialize (none a eq_refl); congruence);
      try (intros _ a' [= <-]; assumption);
      try (intros wrapped input [= <-] ->; reflexivity);
      try (intros wrapped a' sign input [= <-] -> [= <-] same;
           rewrite ?has1, ?has2, ?has3 in same; injection same as <-; reflexivity).
  - repeat split; try discriminate.
Qed.

End Wrappers.

(** *** The auto-connect effect *)

(** X27: the auto-connect effect never throws.  It does nothing without
    an adapter, or unless [autoConnect] and [ready] are both true;
    otherwise it raises [connecting], calls the adapter, and when that call
    has settled, well or not, lowers [connecting] and returns. *)
Theorem autoConnect_never_throws s autoConnect result :
  let r := autoConnect_effect s autoConnect result [] in
  (∀ e, snd r ≠ Throw e) ∧
  (adapter s = None ∨ autoConnect && ready s = false → r = ([], Normal tt)) ∧
  (∀ a, adapter s = Some a → autoConnect && ready s = true →
     fst r = setConnecting true :: adapter_connect a ::
               match result with Awaiting => [] | _ => [setConnecting false] end ∧
     (result ≠ Awaiting →
        snd r = Normal tt ∧ connecting (run s (fst r)) = false)).
Proof.
  cbn zeta. unfold autoConnect_effect.
  destruct (adapter s) as [a|].
  - destruct (autoConnect && ready s).
    + destruct result as [[]|e|]; simpl; repeat split;
        try discriminate; try contradiction;
        try (intros [?|?]; discriminate);
        try (intros a' [= <-] _; repeat split; try contradiction; reflexivity);
        try congruence.
    + repeat split; discriminate.
  - repeat split; discriminate.
Qed.

(** *** The listeners of the adapter's events *)

(** X28: the listener of 'connect' raises [connected] and copies the
    adapter's public key and [autoApprove]; the listener of 'disconnect'
    then resets the six fields, [ready] included, and keeps the name, the
    wallet and the adapter; so a [connect] called after a 'disconnect'
    event finds the wallet not ready: it opens the wallet's URL, hands
    [WalletNotReadyError] to the error sink and throws it, without calling
    the adapter. *)
Theorem disconnect_event_leaves_wallet_unready s live chosen a result :
  wallet s = Some chosen →
  adapter s = Some a →
  let connected_state := run s (trace (onConnect s live)) in
  let s' := run connected_state (trace onDisconnect) in
  connected connected_state = true ∧
  publicKey connected_state = adapter_publicKey (live a) ∧
  autoApprove connected_state = adapter_autoApprove (live a) ∧
  connection_fields s' = (false, false, false, false, false, None) ∧
  (name s', wallet s', adapter s') = (name s, wallet s, adapter s) ∧
  connect s' result []
    = ([browser (window_open (Wallet.url chosen) "_blank");
        onError WalletNotReadyError],
       Throw WalletNotReadyError).
Proof.
  intros selected built. cbn zeta.
  unfold onConnect, onDisconnect, connect. rewrite built.
  simpl. rewrite selected, built. repeat split.
Qed.

Lemma disconnect_event_leaves_wallet_unready_witness :
  connect (run (run Inputs.selected
                  (trace (onConnect Inputs.selected (λ _, View true false (Some "key")))))
             (trace onDisconnect))
      (Normal tt) []
    = ([browser (window_open "https://www.sollet.io" "_blank");
        onError WalletNotReadyError],
       Throw WalletNotReadyError).
Proof.
  destruct (disconnect_event_leaves_wallet_unready Inputs.selected
              (λ _, View true false (Some "key")) Inputs.sollet 1 (Normal tt)
              eq_refl eq_refl) as (_ & _ & _ & _ & _ & refused).
  exact refused.
Defined.

(** X29: the effect that follows the adapter attaches a listener for each
    of the four events to the adapter of the render, once each, and
    nothing else; the cleanup it returns detaches a listener for each of
    the four from the same adapter, once each; without an adapter neither
    does anything. *)
Theorem listeners_are_detached_as_attached s :
  (∀ a ev, adapter_on a ev ∈ trace (subscribe s) ↔ adapter s = Some a) ∧
  (∀ a ev, adapter_off a ev ∈ trace (unsubscribe s) ↔ adapter s = Some a) ∧
  NoDup (trace (subscribe s)) ∧
  NoDup (trace (unsubscribe s)) ∧
  (∀ x, x ∈ trace (subscribe s) → ∃ a ev, x = adapter_on a ev) ∧
  (∀ x, x ∈ trace (unsubscribe s) → ∃ a ev, x = adapter_off a ev).
Proof.
  unfold subscribe, unsubscribe, trace.
  destruct (adapter s) as [a|]; simpl.
  - repeat split.
    + intros inside.
      repeat (apply elem_of_cons in inside as [[= <- _]|inside]; [reflexivity|]).
      inversion inside.
    + intros [= <-]. destruct ev; repeat constructor.
    + intros inside.
      repeat (apply elem_of_cons in inside as [[= <- _]|inside]; [reflexivity|]).
      inversion inside.
    + intros [= <-]. destruct ev; repeat constructor.
    + repeat constructor; intros inside;
        repeat (apply elem_of_cons in inside as [?|inside]; [discriminate|]);
        inversion inside.
    + repeat constructor; intros inside;
        repeat (apply elem_of_cons in inside as [?|inside]; [discriminate|]);
        inversion inside.
    + intros x inside.
      repeat (apply elem_of_cons in inside as [->|inside]; [eauto|]).
      inversion inside.
    + intros x inside.
      repeat (apply elem_of_cons in inside as [->|inside]; [eauto|]).
      inversion inside.
  - repeat split; try discriminate; try apply NoDup_nil_2;
      intros; match goal with H : _ ∈ [] |- _ => inversion H end.
Qed.

End Calls.
